(** * The realtime chat client: connection hook and feed reconciliation

    A shallow embedding of
    - [frontend/src/hooks/useWebSocket.ts] (the hook [useWebSocket]: sanitizer,
      validator, connection management, outbound queue, inbound store), and
    - [frontend/src/components/ChatWindow.tsx] (the merge of the fetched
      history with the live messages: [allMessages], [uniqueMessages]),
    together with the properties of the specification that concern them.

    JavaScript strings are sequences of UTF-16 code units, JSON scalars are a
    small sum type, the hook's refs and React state are one record that every
    handler takes and returns, and the browser (sockets, timers, the wire) is
    part of that record. *)

From Stdlib Require Import ZArith NArith List Bool Lia String Ascii DecimalString Sorted Permutation.
From stdpp Require Import base tactics option list.
Import ListNotations.

Local Open Scope Z_scope.

(** ** JavaScript strings *)

(** A string is its sequence of UTF-16 code units; [length] is [.length]. *)
Definition jsstring := list N.

(** A source literal whose characters are all ASCII. *)
Definition lit (s : string) : jsstring := List.map N_of_ascii (list_ascii_of_string s).

Definition jsstring_eqb (a b : jsstring) : bool := bool_decide (a = b).

(** The code units [String.prototype.trim] strips: WhiteSpace and
    LineTerminator of the language standard. *)
Definition isWhiteSpace (c : N) : bool :=
  ((9 <=? c) && (c <=? 13) || (c =? 32) || (c =? 160) || (c =? 5760)
   || (8192 <=? c) && (c <=? 8202) || (c =? 8232) || (c =? 8233)
   || (c =? 8239) || (c =? 8287) || (c =? 12288) || (c =? 65279))%N.

Fixpoint trimStart (s : jsstring) : jsstring :=
  match s with
  | c :: s' => if isWhiteSpace c then trimStart s' else s
  | [] => []
  end.

Definition trimEnd (s : jsstring) : jsstring := rev (trimStart (rev s)).

Definition trim (s : jsstring) : jsstring := trimEnd (trimStart s).

(** [s.replace(/c/g, rep)] for a pattern that is the single character [c] and
    a replacement text without [$]. *)
Definition replace (c : N) (rep : jsstring) (s : jsstring) : jsstring :=
  flat_map (fun x => if (x =? c)%N then rep else [x]) s.

Definition LT : N := 60.   (* < *)
Definition GT : N := 62.   (* > *)
Definition QUOT : N := 34. (* the double quote *)
Definition APOS : N := 39. (* the apostrophe *)
Definition AMP : N := 38.  (* & *)

(** ** Configuration (useWebSocket.ts, lines 33-37) *)

Definition MAX_MESSAGE_LENGTH : Z := 4000.
Definition MAX_MESSAGES_BUFFER : nat := 1000.
Definition RECONNECT_INTERVALS : list Z := [1000; 2000; 5000; 10000; 30000].
Definition MAX_RECONNECT_ATTEMPTS : nat := 5.
Definition HEARTBEAT_INTERVAL : Z := 30000.

(** ** sanitizeMessage (useWebSocket.ts, lines 54-62)

    Four global replacements, then [trim]. In the source the replacement
    texts for [<], [>] and the double quote are those characters themselves; only the
    apostrophe is rewritten, to [&#x27;]. There is no replacement for [&]. *)
Definition sanitizeMessage (content : jsstring) : jsstring :=
  trim
    (replace APOS (lit "&#x27;")
       (replace QUOT [QUOT]
          (replace GT [GT]
             (replace LT [LT] content)))).

(** ** JavaScript values

    The values a decoded JSON frame or a history record holds in the fields the
    code reads: the JSON scalars ([undefined] stands for an absent property).
    Numbers are the integers; nested arrays and objects as field values are
    left out, the code never looks inside one. *)
Inductive jsval :=
| VUndefined
| VNull
| VBool (b : bool)
| VNum (z : Z)
| VStr (s : jsstring).

(** The [timestamp] field is the one place where a [Date] object occurs
    (line 207 of the hook stores [new Date(...)]); [None] is the time value
    NaN of an invalid date. *)
Inductive tsval :=
| FromJSON (v : jsval)
| DateObj (ms : option Z).

#[global] Instance jsval_eq_dec : EqDecision jsval.
Proof. solve_decision. Defined.
#[global] Instance tsval_eq_dec : EqDecision tsval.
Proof. solve_decision. Defined.

(** [typeof v === 'string'] *)
Definition is_string (v : jsval) : bool :=
  match v with VStr _ => true | _ => false end.

(** ToBoolean, as used by [||], [&&], [!] and [if]. *)
Definition truthy (v : jsval) : bool :=
  match v with
  | VUndefined | VNull => false
  | VBool b => b
  | VNum z => negb (z =? 0)
  | VStr s => negb (Nat.eqb (length s) 0)
  end.

Definition ts_truthy (v : tsval) : bool :=
  match v with
  | FromJSON v => truthy v
  | DateObj _ => true
  end.

(** [a || b] *)
Definition js_or (a b : tsval) : tsval := if ts_truthy a then a else b.

(** [String(v)]. An integer prints in decimal (the model leaves out the
    exponent form of magnitudes from 10^21 on). *)
Definition ToString (v : jsval) : jsstring :=
  match v with
  | VUndefined => lit "undefined"
  | VNull => lit "null"
  | VBool true => lit "true"
  | VBool false => lit "false"
  | VNum z => lit (NilZero.string_of_int (Z.to_int z))
  | VStr s => s
  end.

(** [a === b] on scalars. *)
Definition strict_eq (a b : jsval) : bool := bool_decide (a = b).

(** ** The platform

    What the hook and the chat window take from the browser and do not define:
    the reading of a date text ([Date.parse], [None] for NaN) and whether the
    constructors [URL] and [WebSocket] accept an address or throw. *)
Class Platform := {
  Date_parse : jsstring -> option Z;
  URL_parses : jsstring -> bool;
  WebSocket_accepts : jsstring -> bool
}.

(** TimeClip of the language standard. *)
Definition TimeClip (t : Z) : option Z :=
  if Z.abs t <=? 8640000000000000 then Some t else None.

(** The time value of [new Date(v)] for one argument: a string is parsed,
    anything else goes through ToNumber and TimeClip; a [Date] is copied. *)
Definition newDate `{Platform} (v : tsval) : option Z :=
  match v with
  | FromJSON (VStr s) => Date_parse s
  | FromJSON (VNum n) => TimeClip n
  | FromJSON (VBool b) => Some (if b then 1 else 0)
  | FromJSON VNull => Some 0
  | FromJSON VUndefined => None
  | DateObj ms => ms
  end.

(** [new Date(String(v)).getTime()], [None] for NaN. A [Date] prints through
    [toString], which has no milliseconds and which [Date.parse] must read
    back, so that the time comes back cut to the whole second (the model
    takes this for every valid date, as it is for the years of four digits);
    an invalid date prints as the text Invalid Date, which is no date. *)
Definition getTimeOfString `{Platform} (v : tsval) : option Z :=
  match v with
  | FromJSON v => Date_parse (ToString v)
  | DateObj (Some t) => Some (1000 * (t / 1000))
  | DateObj None => None
  end.

(** ** Messages

    One record for the objects the code treats as messages: a decoded inbound
    frame, a stored live message and a fetched history record. The fields are
    the properties the code reads. *)
Record Message := {
  id : jsval;
  content : jsval;
  sender : jsval;
  chatId : jsval;
  timestamp : tsval;
  created_at : jsval;
  type : jsval
}.

#[global] Instance Message_eq_dec : EqDecision Message.
Proof. solve_decision. Defined.

(** [message.content.length], for a content that is a string. *)
Definition content_length (m : Message) : Z :=
  match content m with
  | VStr s => Z.of_nat (length s)
  | _ => 0
  end.

(** validateMessage (useWebSocket.ts, lines 64-74), on a decoded object. *)
Definition validateMessage (message : Message) : bool :=
  is_string (id message) &&
  is_string (content message) &&
  is_string (sender message) &&
  is_string (chatId message) &&
  (content_length message <=? MAX_MESSAGE_LENGTH).

(** The result of [JSON.parse(event.data)]. *)
Inductive decoded :=
| SyntaxError                (* the text is not JSON: [JSON.parse] throws *)
| Scalar (v : jsval)         (* null, a boolean, a number or a string *)
| Array
| Object (o : Message).

(** ** The hook's state (useWebSocket.ts, lines 30-48) *)

Inductive ConnectionState :=
| disconnected | connecting | connected | error | reconnecting.

Inductive ReadyState := CONNECTING | OPEN | CLOSING | CLOSED.

#[global] Instance ConnectionState_eq_dec : EqDecision ConnectionState.
Proof. solve_decision. Defined.
#[global] Instance ReadyState_eq_dec : EqDecision ReadyState.
Proof. solve_decision. Defined.

(** A frame handed to [send]: the text [JSON.stringify] makes of the heartbeat
    object (line 97) or of the message object of [sendMessage] (lines 265-273).
    The text of an object is never empty, so it is truthy; [timestamp] is the
    time value whose [toISOString] the source sends. *)
Inductive frame :=
| Ping
| Chat (id chatId content : jsstring) (timestamp : Z) (sender : jsstring).

#[global] Instance frame_eq_dec : EqDecision frame.
Proof. solve_decision. Defined.

(** The React state, the refs, and the part of the browser the hook acts on.
    Socket [n] is the [n]-th [WebSocket] constructed; a timer is named by the
    identifier [setTimeout] or [setInterval] returned (positive, so truthy).
    Every pending timeout runs the reconnect callback of lines 173-176 and
    every pending interval the heartbeat callback of lines 95-99. *)
Record hook := {
  connectionState : ConnectionState;
  messages : list Message;
  errorText : option string;            (* the state [error] *)
  wsRef : option nat;
  reconnectAttempts : nat;
  reconnectTimeoutRef : option nat;
  heartbeatIntervalRef : option nat;
  messageQueue : list frame;
  sockets : list ReadyState;
  wire : list (nat * frame);            (* what was sent, oldest first *)
  timeouts : list (nat * Z);            (* pending timeouts with their delay *)
  intervals : list nat;                 (* pending intervals *)
  next_timer : nat
}.

Definition initial : hook :=
  {| connectionState := disconnected; messages := []; errorText := None;
     wsRef := None; reconnectAttempts := 0; reconnectTimeoutRef := None;
     heartbeatIntervalRef := None; messageQueue := [];
     sockets := []; wire := []; timeouts := []; intervals := [];
     next_timer := 1 |}.

Definition setConnectionState (v : ConnectionState) (s : hook) : hook :=
  {| connectionState := v; messages := messages s; errorText := errorText s;
     wsRef := wsRef s; reconnectAttempts := reconnectAttempts s;
     reconnectTimeoutRef := reconnectTimeoutRef s;
     heartbeatIntervalRef := heartbeatIntervalRef s;
     messageQueue := messageQueue s; sockets := sockets s; wire := wire s;
     timeouts := timeouts s; intervals := intervals s;
     next_timer := next_timer s |}.

Definition setMessages (f : list Message -> list Message) (s : hook) : hook :=
  {| connectionState := connectionState s; messages := f (messages s);
     errorText := errorText s;
     wsRef := wsRef s; reconnectAttempts := reconnectAttempts s;
     reconnectTimeoutRef := reconnectTimeoutRef s;
     heartbeatIntervalRef := heartbeatIntervalRef s;
     messageQueue := messageQueue s; sockets := sockets s; wire := wire s;
     timeouts := timeouts s; intervals := intervals s;
     next_timer := next_timer s |}.

Definition setError (v : option string) (s : hook) : hook :=
  {| connectionState := connectionState s; messages := messages s;
     errorText := v;
     wsRef := wsRef s; reconnectAttempts := reconnectAttempts s;
     reconnectTimeoutRef := reconnectTimeoutRef s;
     heartbeatIntervalRef := heartbeatIntervalRef s;
     messageQueue := messageQueue s; sockets := sockets s; wire := wire s;
     timeouts := timeouts s; intervals := intervals s;
     next_timer := next_timer s |}.

Definition set_wsRef (v : option nat) (s : hook) : hook :=
  {| connectionState := connectionState s; messages := messages s;
     errorText := errorText s;
     wsRef := v; reconnectAttempts := reconnectAttempts s;
     reconnectTimeoutRef := reconnectTimeoutRef s;
     heartbeatIntervalRef := heartbeatIntervalRef s;
     messageQueue := messageQueue s; sockets := sockets s; wire := wire s;
     timeouts := timeouts s; intervals := intervals s;
     next_timer := next_timer s |}.

Definition set_reconnectAttempts (v : nat) (s : hook) : hook :=
  {| connectionState := connectionState s; messages := messages s;
     errorText := errorText s;
     wsRef := wsRef s; reconnectAttempts := v;
     reconnectTimeoutRef := reconnectTimeoutRef s;
     heartbeatIntervalRef := heartbeatIntervalRef s;
     messageQueue := messageQueue s; sockets := sockets s; wire := wire s;
     timeouts := timeouts s; intervals := intervals s;
     next_timer := next_timer s |}.

Definition set_reconnectTimeoutRef (v : option nat) (s : hook) : hook :=
  {| connectionState := connectionState s; messages := messages s;
     errorText := errorText s;
     wsRef := wsRef s; reconnectAttempts := reconnectAttempts s;
     reconnectTimeoutRef := v;
     heartbeatIntervalRef := heartbeatIntervalRef s;
     messageQueue := messageQueue s; sockets := sockets s; wire := wire s;
     timeouts := timeouts s; intervals := intervals s;
     next_timer := next_timer s |}.

Definition set_heartbeatIntervalRef (v : option nat) (s : hook) : hook :=
  {| connectionState := connectionState s; messages := messages s;
     errorText := errorText s;
     wsRef := wsRef s; reconnectAttempts := reconnectAttempts s;
     reconnectTimeoutRef := reconnectTimeoutRef s;
     heartbeatIntervalRef := v;
     messageQueue := messageQueue s; sockets := sockets s; wire := wire s;
     timeouts := timeouts s; intervals := intervals s;
     next_timer := next_timer s |}.

Definition set_messageQueue (v : list frame) (s : hook) : hook :=
  {| connectionState := connectionState s; messages := messages s;
     errorText := errorText s;
     wsRef := wsRef s; reconnectAttempts := reconnectAttempts s;
     reconnectTimeoutRef := reconnectTimeoutRef s;
     heartbeatIntervalRef := heartbeatIntervalRef s;
     messageQueue := v; sockets := sockets s; wire := wire s;
     timeouts := timeouts s; intervals := intervals s;
     next_timer := next_timer s |}.

Definition set_sockets (v : list ReadyState) (s : hook) : hook :=
  {| connectionState := connectionState s; messages := messages s;
     errorText := errorText s;
     wsRef := wsRef s; reconnectAttempts := reconnectAttempts s;
     reconnectTimeoutRef := reconnectTimeoutRef s;
     heartbeatIntervalRef := heartbeatIntervalRef s;
     messageQueue := messageQueue s; sockets := v; wire := wire s;
     timeouts := timeouts s; intervals := intervals s;
     next_timer := next_timer s |}.

Definition set_wire (v : list (nat * frame)) (s : hook) : hook :=
  {| connectionState := connectionState s; messages := messages s;
     errorText := errorText s;
     wsRef := wsRef s; reconnectAttempts := reconnectAttempts s;
     reconnectTimeoutRef := reconnectTimeoutRef s;
     heartbeatIntervalRef := heartbeatIntervalRef s;
     messageQueue := messageQueue s; sockets := sockets s; wire := v;
     timeouts := timeouts s; intervals := intervals s;
     next_timer := next_timer s |}.

Definition set_timers (ts : list (nat * Z)) (ivs : list nat) (next : nat)
    (s : hook) : hook :=
  {| connectionState := connectionState s; messages := messages s;
     errorText := errorText s;
     wsRef := wsRef s; reconnectAttempts := reconnectAttempts s;
     reconnectTimeoutRef := reconnectTimeoutRef s;
     heartbeatIntervalRef := heartbeatIntervalRef s;
     messageQueue := messageQueue s; sockets := sockets s; wire := wire s;
     timeouts := ts; intervals := ivs; next_timer := next |}.

(** ** The browser's part *)

(** [ws.readyState === r] for socket [n]. *)
Definition readyState_is (n : nat) (r : ReadyState) (s : hook) : bool :=
  bool_decide (sockets s !! n = Some r).

(** [wsRef.current?.readyState === WebSocket.OPEN] *)
Definition wsOpen (s : hook) : bool :=
  match wsRef s with
  | Some n => readyState_is n OPEN s
  | None => false
  end.

(** [ws.send(text)] on an open socket. *)
Definition send (n : nat) (f : frame) (s : hook) : hook :=
  set_wire (wire s ++ [(n, f)]) s.

(** [ws.close(1000, reason)]: an open or connecting socket starts closing;
    its close event comes later. *)
Definition close (n : nat) (s : hook) : hook :=
  match sockets s !! n with
  | Some CONNECTING | Some OPEN => set_sockets (<[n := CLOSING]> (sockets s)) s
  | _ => s
  end.

(** [new WebSocket(url)]: the new socket's number and the state with it. *)
Definition newWebSocket (s : hook) : nat * hook :=
  (length (sockets s), set_sockets (sockets s ++ [CONNECTING]) s).

Definition setTimeout (delay : Z) (s : hook) : nat * hook :=
  (next_timer s,
   set_timers (timeouts s ++ [(next_timer s, delay)]) (intervals s)
     (S (next_timer s)) s).

Definition clearTimeout (t : nat) (s : hook) : hook :=
  set_timers (List.filter (fun p => negb (Nat.eqb (fst p) t)) (timeouts s))
    (intervals s) (next_timer s) s.

Definition setInterval (s : hook) : nat * hook :=
  (next_timer s,
   set_timers (timeouts s) (intervals s ++ [next_timer s])
     (S (next_timer s)) s).

Definition clearInterval (t : nat) (s : hook) : hook :=
  set_timers (timeouts s)
    (List.filter (fun i => negb (Nat.eqb i t)) (intervals s))
    (next_timer s) s.

(** ** The hook's functions (useWebSocket.ts, lines 89-290) *)

Section Hook.
Context `{Platform}.

(** The hook's argument [url] ([None] for [undefined] and [null]). The token
    only adds a query parameter to it (lines 76-87) and is left out. *)
Variable url : option jsstring.

(** startHeartbeat, lines 90-100 *)
Definition startHeartbeat (s : hook) : hook :=
  let s := match heartbeatIntervalRef s with
           | Some t => clearInterval t s
           | None => s
           end in
  let '(t, s) := setInterval s in
  set_heartbeatIntervalRef (Some t) s.

(** The interval's callback, lines 95-99 *)
Definition heartbeat (s : hook) : hook :=
  match wsRef s with
  | Some n => if readyState_is n OPEN s then send n Ping s else s
  | None => s
  end.

(** stopHeartbeat, lines 102-107 *)
Definition stopHeartbeat (s : hook) : hook :=
  match heartbeatIntervalRef s with
  | Some t => set_heartbeatIntervalRef None (clearInterval t s)
  | None => s
  end.

(** The body of [connect], lines 110-131, up to the assignment of the
    handlers: the new socket gets the four handlers below. [!url] holds of
    [undefined] and of the empty text. *)
Definition connect (s : hook) : hook :=
  match url with
  | None | Some [] => setConnectionState disconnected s
  | Some u =>
      if wsOpen s then s
      else
        let s := setConnectionState connecting s in
        let s := setError None s in
        if URL_parses u && WebSocket_accepts u then
          let '(ws, s) := newWebSocket s in
          set_wsRef (Some ws) s
        else
          (* the catch of lines 223-227 *)
          let s := setConnectionState error s in
          setError (Some "Failed to establish connection"%string) s
  end.

(** The loop of lines 142-147: [shift] the head, send it when it is truthy
    (a frame's text always is) and the socket is open. *)
Fixpoint drainQueue (ws : nat) (queue : list frame) (s : hook) : hook :=
  match queue with
  | [] => s
  | queuedMessage :: rest =>
      let s := set_messageQueue rest s in
      drainQueue ws rest
        (if readyState_is ws OPEN s then send ws queuedMessage s else s)
  end.

(** ws.onopen, lines 132-148 *)
Definition onopen (ws : nat) (s : hook) : hook :=
  let s := setConnectionState connected s in
  let s := setError None s in
  let s := set_reconnectAttempts 0 s in
  let s := startHeartbeat s in
  drainQueue ws (messageQueue s) s.

(** [RECONNECT_INTERVALS[Math.min(attempts, RECONNECT_INTERVALS.length - 1)]] *)
Definition reconnectDelay (attempts : nat) : Z :=
  nth (Nat.min attempts (length RECONNECT_INTERVALS - 1)) RECONNECT_INTERVALS 0.

(** ws.onclose, lines 150-180; the timeout's callback is [reconnectCallback]. *)
Definition onclose (code : Z) (s : hook) : hook :=
  let s := setConnectionState disconnected s in
  let s := stopHeartbeat s in
  if code =? 4001 then
    setError (Some "Authentication failed. Please log in again."%string) s
  else if code =? 4003 then
    setError (Some "Rate limit exceeded. Please slow down."%string) s
  else if negb (code =? 1000)
          && (reconnectAttempts s <? MAX_RECONNECT_ATTEMPTS)%nat then
    let delay := reconnectDelay (reconnectAttempts s) in
    let s := setConnectionState reconnecting s in
    let '(t, s) := setTimeout delay s in
    set_reconnectTimeoutRef (Some t) s
  else if (MAX_RECONNECT_ATTEMPTS <=? reconnectAttempts s)%nat then
    setError (Some "Connection failed after multiple attempts. Please refresh the page."%string) s
  else s.

(** The timeout's callback, lines 173-176 *)
Definition reconnectCallback (s : hook) : hook :=
  connect (set_reconnectAttempts (S (reconnectAttempts s)) s).

(** ws.onerror, lines 182-186 *)
Definition onerror (s : hook) : hook :=
  setError (Some "Connection error occurred"%string)
    (setConnectionState error s).

(** [a.slice(-n)] *)
Definition slice_last {A} (n : nat) (a : list A) : list A :=
  skipn (length a - n) a.

(** The text of a content that is a string. *)
Definition content_text (m : Message) : jsstring :=
  match content m with
  | VStr s => s
  | _ => []
  end.

(** The object of lines 204-208: the decoded frame with its content
    sanitized and its timestamp made a [Date]; [now] is [Date.now()]. *)
Definition sanitizedMessage (now : Z) (data : Message) : Message :=
  {| id := id data;
     content := VStr (sanitizeMessage (content_text data));
     sender := sender data;
     chatId := chatId data;
     timestamp := DateObj (newDate (js_or (timestamp data) (FromJSON (VNum now))));
     created_at := created_at data;
     type := type data |}.

(** ws.onmessage, lines 188-221. Reading [data.type] of [null] throws, which
    the catch swallows like a syntax error; the other scalars and an array
    have no property [type] and fail the validation. *)
Definition onmessage (data : decoded) (now : Z) (s : hook) : hook :=
  match data with
  | SyntaxError => s
  | Scalar _ => s
  | Array => s
  | Object data =>
      if strict_eq (type data) (VStr (lit "pong")) then s
      else if negb (validateMessage data) then s
      else
        setMessages
          (fun prev => slice_last MAX_MESSAGES_BUFFER (prev ++ [sanitizedMessage now data]))
          s
  end.

(** disconnect, lines 231-246 *)
Definition disconnect (s : hook) : hook :=
  let s := match reconnectTimeoutRef s with
           | Some t => set_reconnectTimeoutRef None (clearTimeout t s)
           | None => s
           end in
  let s := stopHeartbeat s in
  let s := match wsRef s with
           | Some ws => set_wsRef None (close ws s)
           | None => s
           end in
  let s := setConnectionState disconnected s in
  set_reconnectAttempts 0 s.

(** sendMessage, lines 249-285; [uuid] is [crypto.randomUUID()] and [now] the
    time value of [new Date()]. *)
Definition sendMessage (chatId content uuid : jsstring) (now : Z) (s : hook)
    : hook * bool :=
  if Nat.eqb (length (trim content)) 0 then (s, false)
  else if MAX_MESSAGE_LENGTH <? Z.of_nat (length content) then
    (setError (Some "Message too long. Maximum 4000 characters."%string) s, false)
  else
    let sanitizedContent := sanitizeMessage content in
    let message := Chat uuid chatId sanitizedContent now (lit "You") in
    match wsRef s with
    | Some ws =>
        if readyState_is ws OPEN s then (send ws message s, true)
        else (set_messageQueue (messageQueue s ++ [message]) s, false)
    | None => (set_messageQueue (messageQueue s ++ [message]) s, false)
    end.

(** clearMessages, lines 288-290 *)
Definition clearMessages (s : hook) : hook := setMessages (fun _ => []) s.

(** ** Events

    What the browser does on its own: it moves a socket's [readyState] and
    calls the socket's handler, or it runs a timer's callback. An event is
    enabled in the states in which the browser can raise it. *)
Inductive event :=
| EvOpen (ws : nat)
| EvClose (ws : nat) (code : Z)
| EvError (ws : nat)
| EvMessage (ws : nat) (data : decoded) (now : Z)
| EvTimeout (t : nat)
| EvInterval (t : nat).

Definition enabled (e : event) (s : hook) : bool :=
  match e with
  | EvOpen ws => readyState_is ws CONNECTING s
  | EvClose ws _ =>
      readyState_is ws CONNECTING s || readyState_is ws OPEN s
      || readyState_is ws CLOSING s
  | EvError ws =>
      readyState_is ws CONNECTING s || readyState_is ws OPEN s
      || readyState_is ws CLOSING s
  | EvMessage ws _ _ => readyState_is ws OPEN s || readyState_is ws CLOSING s
  | EvTimeout t => existsb (fun p => Nat.eqb (fst p) t) (timeouts s)
  | EvInterval t => existsb (Nat.eqb t) (intervals s)
  end.

Definition handle (e : event) (s : hook) : hook :=
  match e with
  | EvOpen ws => onopen ws (set_sockets (<[ws := OPEN]> (sockets s)) s)
  | EvClose ws code => onclose code (set_sockets (<[ws := CLOSED]> (sockets s)) s)
  | EvError ws => onerror s
  | EvMessage ws data now => onmessage data now s
  | EvTimeout t => reconnectCallback (clearTimeout t s)
  | EvInterval t => heartbeat s
  end.

(** A run of enabled events. *)
Inductive run : hook -> list event -> hook -> Prop :=
| run_nil s : run s [] s
| run_cons s e es s' :
    enabled e s = true -> run (handle e s) es s' -> run s (e :: es) s'.

End Hook.

(** ** The merged feed (ChatWindow.tsx, lines 60-65) *)

(** [a.findIndex(p)], -1 when no element passes. *)
Fixpoint findIndex {A} (p : A -> bool) (a : list A) : Z :=
  match a with
  | [] => -1
  | x :: a' =>
      if p x then 0
      else let r := findIndex p a' in if r <? 0 then -1 else r + 1
  end.

(** [a.filter((v, i, a) => f(v, i, a))] *)
Fixpoint filter_from {A} (f : A -> nat -> bool) (i : nat) (l : list A) : list A :=
  match l with
  | [] => []
  | v :: l' =>
      if f v i then v :: filter_from f (S i) l' else filter_from f (S i) l'
  end.

Definition filter_indexed {A} (f : A -> nat -> list A -> bool) (a : list A) : list A :=
  filter_from (fun v i => f v i a) 0 a.

(** SortCompare of the language standard for a comparator that returns a
    number: NaN counts as +0. *)
Definition SortCompare {A} (comparefn : A -> A -> option Z) (x y : A) : Z :=
  match comparefn x y with
  | Some v => v
  | None => 0
  end.

(** [a.sort(comparefn)]. The standard asks for a stable sort, which fixes the
    result whenever the comparator orders the elements consistently and
    never returns NaN; the model is the stable insertion sort, an element
    moving right past the elements it is greater than. Where the comparator
    returns NaN the standard leaves the order to the engine; the engines
    agree with the model at least where no element is greater than another,
    nothing moving then. *)
Fixpoint insert {A} (comparefn : A -> A -> option Z) (x : A) (l : list A) : list A :=
  match l with
  | [] => [x]
  | y :: l' =>
      if 0 <? SortCompare comparefn x y then y :: insert comparefn x l'
      else x :: y :: l'
  end.

Fixpoint sort {A} (comparefn : A -> A -> option Z) (a : list A) : list A :=
  match a with
  | [] => []
  | x :: a' => insert comparefn x (sort comparefn a')
  end.

Section Feed.
Context `{Platform}.

(** [a.created_at || a.timestamp] *)
Definition timeField (a : Message) : tsval :=
  js_or (FromJSON (created_at a)) (timestamp a).

(** [new Date(String(aTime)).getTime()], [None] for NaN *)
Definition time (a : Message) : option Z := getTimeOfString (timeField a).

(** The comparator of lines 60-64. The difference of two time values is
    exact up to rounding that keeps its sign. *)
Definition comparefn (a b : Message) : option Z :=
  match time a, time b with
  | Some aTime, Some bTime => Some (aTime - bTime)
  | _, _ => None
  end.

(** [String(m.id)] *)
Definition key (m : Message) : jsstring := ToString (id m).

(** [messages.filter(msg => msg.chatId === chatId)], line 60; [chat] is the
    prop [chatId] ([VNull] or a string). *)
Definition liveOfChat (chat : jsval) (messages : list Message) : list Message :=
  List.filter (fun msg => strict_eq (chatId msg) chat) messages.

(** The array that is sorted: the history, then the live messages. *)
Definition concatenated (chat : jsval) (chatHistory messages : list Message)
    : list Message :=
  chatHistory ++ liveOfChat chat messages.

(** allMessages, lines 60-64 *)
Definition allMessages (chat : jsval) (chatHistory messages : list Message)
    : list Message :=
  sort comparefn (concatenated chat chatHistory messages).

(** uniqueMessages, line 65 *)
Definition uniqueMessages (allMessages : list Message) : list Message :=
  filter_indexed
    (fun v i a =>
       findIndex (fun t => jsstring_eqb (key t) (key v)) a =? Z.of_nat i)
    allMessages.

(** The feed the window renders. *)
Definition MergedFeed (chat : jsval) (chatHistory messages : list Message)
    : list Message :=
  uniqueMessages (allMessages chat chatHistory messages).

(** Vocabulary of the properties. *)

Definition has_key (k : jsstring) (m : Message) : bool := jsstring_eqb (key m) k.

Definition at_time (t : Z) (m : Message) : bool := bool_decide (time m = Some t).

(** The timestamp resolves: it is present and the platform reads it. *)
Definition resolvable (m : Message) : Prop := is_Some (time m).

Definition time_le (a b : Message) : Prop :=
  forall x y, time a = Some x -> time b = Some y -> x <= y.

(** The time value, 0 standing in where there is none. *)
Definition time_value (m : Message) : Z := default 0 (time m).

(** The elements whose key no earlier element has, [seen] being the
    elements before [l]: what line 65 keeps. *)
Fixpoint keepFirst (seen l : list Message) : list Message :=
  match l with
  | [] => []
  | v :: l' =>
      if existsb (has_key (key v)) seen then keepFirst (seen ++ [v]) l'
      else v :: keepFirst (seen ++ [v]) l'
  end.

End Feed.

(** ** A reference platform

    Used by the examples: it reads dates in the form [toISOString] writes,
    YYYY-MM-DDTHH:mm:ss.sssZ, the one form whose reading the standard fixes for
    every engine, and takes any other text for no date; it accepts the
    addresses that start with ws:// or wss://. The theorems below hold for
    every platform. *)

Definition digit (c : N) : option Z :=
  if ((48 <=? c) && (c <=? 57))%N then Some (Z.of_N c - 48) else None.

Fixpoint digits (acc : Z) (s : jsstring) : option Z :=
  match s with
  | [] => Some acc
  | c :: s' =>
      match digit c with
      | Some d => digits (10 * acc + d) s'
      | None => None
      end
  end.

Definition field (s : jsstring) (from len : nat) : option Z :=
  digits 0 (firstn len (skipn from s)).

Definition is_leap (y : Z) : bool :=
  (y mod 4 =? 0) && (negb (y mod 100 =? 0) || (y mod 400 =? 0)).

Definition days_in_month (y m : Z) : Z :=
  if m =? 2 then (if is_leap y then 29 else 28)
  else if (m =? 4) || (m =? 6) || (m =? 9) || (m =? 11) then 30
  else 31.

(** Days from 1970-01-01 to the civil date, in the proleptic Gregorian
    calendar. *)
Definition days_from_civil (y m d : Z) : Z :=
  let y' := if m <=? 2 then y - 1 else y in
  let era := y' / 400 in
  let yoe := y' - era * 400 in
  let mp := if 2 <? m then m - 3 else m + 9 in
  let doy := (153 * mp + 2) / 5 + d - 1 in
  let doe := yoe * 365 + yoe / 4 - yoe / 100 + doy in
  era * 146097 + doe - 719468.

Definition separators_ok (s : jsstring) : bool :=
  let at_ i c := (nth i s 0 =? c)%N in
  Nat.eqb (length s) 24
  && at_ 4%nat 45%N && at_ 7%nat 45%N && at_ 10%nat 84%N && at_ 13%nat 58%N
  && at_ 16%nat 58%N && at_ 19%nat 46%N && at_ 23%nat 90%N.

Definition Date_parse_ISO (s : jsstring) : option Z :=
  if separators_ok s then
    match field s 0 4, field s 5 2, field s 8 2,
          field s 11 2, field s 14 2, field s 17 2, field s 20 3 with
    | Some y, Some mo, Some d, Some h, Some mi, Some sec, Some ms =>
        if (1 <=? mo) && (mo <=? 12) && (1 <=? d) && (d <=? days_in_month y mo)
           && (h <=? 23) && (mi <=? 59) && (sec <=? 59)
        then Some (days_from_civil y mo d * 86400000
                   + h * 3600000 + mi * 60000 + sec * 1000 + ms)
        else None
    | _, _, _, _, _, _, _ => None
    end
  else None.

Definition starts_with (p s : jsstring) : bool :=
  jsstring_eqb (firstn (length p) s) p.

#[global] Instance reference_platform : Platform :=
  {| Date_parse := Date_parse_ISO;
     URL_parses := fun u => starts_with (lit "ws://") u || starts_with (lit "wss://") u;
     WebSocket_accepts := fun _ => true |}.

(** ** Vocabulary of the hook's properties *)

(** Socket [n] is a live channel: connecting or open. *)
Definition live (n : nat) (s : hook) : bool :=
  readyState_is n CONNECTING s || readyState_is n OPEN s.

(** The states from which nothing schedules a reconnect timer any more: the
    counter is at the ceiling, no timeout is pending, no channel is live. *)
Definition given_up (s : hook) : Prop :=
  (MAX_RECONNECT_ATTEMPTS <= reconnectAttempts s)%nat
  /\ timeouts s = []
  /\ (forall n, live n s = false)
  /\ (connectionState s = disconnected \/ connectionState s = error).

(** The content passes the checks of lines 251-260. *)
Definition validContent (content : jsstring) : bool :=
  negb (Nat.eqb (length (trim content)) 0)
  && (Z.of_nat (length content) <=? MAX_MESSAGE_LENGTH).

(** One call of [sendMessage]: its arguments and what the platform supplies. *)
Record composed := {
  to_chat : jsstring;
  text : jsstring;
  uuid : jsstring;
  at_ms : Z
}.

(** The frame [sendMessage] builds for a composed message. *)
Definition frame_of (c : composed) : frame :=
  Chat (uuid c) (to_chat c) (sanitizeMessage (text c)) (at_ms c) (lit "You").

Definition compose (c : composed) (s : hook) : hook * bool :=
  sendMessage (to_chat c) (text c) (uuid c) (at_ms c) s.

(** The calls one after the other. *)
Definition composeAll (cs : list composed) (s : hook) : hook :=
  fold_left (fun s c => fst (compose c s)) cs s.

(** The events one after the other, as long as each is enabled. *)
Fixpoint play `{Platform} (url : option jsstring) (es : list event) (s : hook)
    : option hook :=
  match es with
  | [] => Some s
  | e :: es' => if enabled e s then play url es' (handle url e s) else None
  end.

(** ** The hook's effect and its callers *)

Section Callers.
Context `{Platform}.

(** The effect of lines 293-303 for the address [url]: its body, and the
    cleanup React runs before the next body and at unmount. *)
Definition effect (url : option jsstring) (s : hook) : hook :=
  match url with
  | None | Some [] => disconnect s
  | Some _ => connect url s
  end.

Definition cleanup (s : hook) : hook := disconnect s.

(** The address changes from one render to the next: the cleanup of the old
    effect, then the body of the new one. *)
Definition switch (url' : option jsstring) (s : hook) : hook :=
  effect url' (cleanup s).

(** [isConnected], line 51 *)
Definition isConnected (s : hook) : bool :=
  bool_decide (connectionState s = connected).

(** handleSendMessage of ChatWindow.tsx, lines 28-34, on the component's
    state [newMessage] and the hook; [chatId] is the prop ([None] for
    [null]). The result of [sendMessage] is not looked at. *)
Definition ChatWindow_handleSendMessage (chatId : option jsstring)
    (uuid : jsstring) (now : Z) (newMessage : jsstring) (s : hook)
    : jsstring * hook :=
  match chatId with
  | None | Some [] => (newMessage, s)
  | Some chat =>
      if Nat.eqb (length (trim newMessage)) 0 || negb (isConnected s)
      then (newMessage, s)
      else ([], fst (sendMessage chat newMessage uuid now s))
  end.

(** handleSendMessage of the enhanced chat window
    (chat/EnhancedChatSidebar.tsx, lines 494-513), on the component's state
    [messageText] and the hook: the input is cleared on success only. *)
Definition EnhancedChatWindow_handleSendMessage (chatId : option jsstring)
    (uuid : jsstring) (now : Z) (messageText : jsstring) (s : hook)
    : jsstring * hook :=
  match chatId with
  | None | Some [] => (messageText, s)
  | Some chat =>
      if Nat.eqb (length (trim messageText)) 0 then (messageText, s)
      else
        let '(s', success) := sendMessage chat messageText uuid now s in
        (if success then [] else messageText, s')
  end.

(** What can happen to a mounted hook: an event of the browser, or a call of
    one of the functions the hook returns. *)
Inductive action :=
| Auto (e : event)
| CallConnect
| CallDisconnect
| CallSend (c : composed)
| CallClear.

Definition permitted (a : action) (s : hook) : bool :=
  match a with
  | Auto e => enabled e s
  | _ => true
  end.

Definition perform (url : option jsstring) (a : action) (s : hook) : hook :=
  match a with
  | Auto e => handle url e s
  | CallConnect => connect url s
  | CallDisconnect => disconnect s
  | CallSend c => fst (compose c s)
  | CallClear => clearMessages s
  end.

(** A sequence of permitted actions. *)
Inductive session (url : option jsstring) : hook -> list action -> hook -> Prop :=
| session_nil s : session url s [] s
| session_cons s a acts s' :
    permitted a s = true -> session url (perform url a s) acts s' ->
    session url s (a :: acts) s'.

End Callers.

(** The open event of a socket, among the actions. *)
Definition opening (a : action) : bool :=
  match a with
  | Auto (EvOpen _) => true
  | _ => false
  end.

(** The messages the calls of [sendMessage] in a sequence of actions hand
    over that pass the validation, in the order of the calls. *)
Definition composedValid (acts : list action) : list composed :=
  flat_map (fun a => match a with
                     | CallSend c => if validContent (text c) then [c] else []
                     | _ => []
                     end) acts.

(** A stored message as the inbound handler makes them: the four fields
    strings, the content without apostrophe and without white space at its
    ends, the timestamp a [Date]. *)
Definition stored_ok (m : Message) : Prop :=
  is_string (id m) = true /\ is_string (sender m) = true
  /\ is_string (chatId m) = true
  /\ (exists c, content m = VStr c /\ Forall (fun x => x <> APOS) c /\ trim c = c)
  /\ (exists d, timestamp m = DateObj d).

(** The heartbeat's interval is the only interval there is. *)
Definition one_heartbeat (s : hook) : Prop :=
  intervals s = match heartbeatIntervalRef s with
                | Some t => [t]
                | None => []
                end.

(** At most one channel or one pending reconnect timer, none closing, the
    retry counter within the ceiling: what the browser's events keep. *)
Definition one_channel (s : hook) : Prop :=
  (forall i j, live i s = true -> live j s = true -> i = j)
  /\ (forall i, readyState_is i CLOSING s = false)
  /\ (length (timeouts s) <= 1)%nat
  /\ (timeouts s <> [] -> forall i, live i s = false)
  /\ (reconnectAttempts s <= MAX_RECONNECT_ATTEMPTS)%nat
  /\ (timeouts s <> [] -> (reconnectAttempts s < MAX_RECONNECT_ATTEMPTS)%nat).

(** ** Concrete inputs of the examples *)

Definition chat42 : jsval := VStr (lit "42").

(** A message of chat 42 from bob. *)
Definition message_of (i : string) (text : string) (ts : tsval) (created : jsval)
    : Message :=
  {| id := VStr (lit i); content := VStr (lit text); sender := VStr (lit "bob");
     chatId := chat42; timestamp := ts; created_at := created;
     type := VUndefined |}.

(** An inbound frame whose content holds an ampersand. *)
Definition frame_ampersand : Message :=
  message_of "m1" "Tom & Jerry" (FromJSON (VStr (lit "2024-01-01T10:00:00.000Z"))) VUndefined.

(** An inbound frame whose content holds an apostrophe and blanks around. *)
Definition frame_apostrophe : Message :=
  message_of "m2" "  it's here " (FromJSON VUndefined) VUndefined.

(** 10:00 on the first of January 2024, UTC. *)
Definition ten_oclock : Z := 1704103200000.

(** Two live messages of the same instant, a history record of that instant
    with the id of the first, a later history record and a record without
    any date. *)
Definition live_a : Message :=
  message_of "a" "hello" (DateObj (Some ten_oclock)) VUndefined.
Definition live_b : Message :=
  message_of "b" "world" (DateObj (Some ten_oclock)) VUndefined.
Definition history_a : Message :=
  message_of "a" "hello" (FromJSON VUndefined) (VStr (lit "2024-01-01T10:00:00.000Z")).
Definition history_c : Message :=
  message_of "c" "later" (FromJSON VUndefined) (VStr (lit "2024-01-01T10:05:00.000Z")).
Definition undated_x : Message :=
  message_of "x" "no date" (FromJSON VUndefined) VUndefined.

(** Two live messages within one second, the later one received first. *)
Definition live_900 : Message :=
  message_of "p" "later" (DateObj (Some (ten_oclock + 900))) VUndefined.
Definition live_100 : Message :=
  message_of "q" "earlier" (DateObj (Some (ten_oclock + 100))) VUndefined.

Definition url42 : option jsstring := Some (lit "ws://localhost:8000/ws/42").

(** Five abnormal closes, each followed by its reconnect timer: sockets 0 to
    4 close, timers 1 to 5 fire, socket 5 is left connecting. *)
Definition five_retries : list event :=
  [EvClose 0 1006; EvTimeout 1; EvClose 1 1006; EvTimeout 2;
   EvClose 2 1006; EvTimeout 3; EvClose 3 1006; EvTimeout 4;
   EvClose 4 1006; EvTimeout 5].

Definition hello : composed :=
  {| to_chat := lit "42"; text := lit "hello"; uuid := lit "u-1"; at_ms := ten_oclock |}.
Definition again : composed :=
  {| to_chat := lit "42"; text := lit "again"; uuid := lit "u-2"; at_ms := ten_oclock + 1 |}.
Definition blank : composed :=
  {| to_chat := lit "42"; text := lit "   "; uuid := lit "u-3"; at_ms := ten_oclock + 2 |}.

(** The state the five retries lead to from the first [connect]. *)
Definition at_ceiling : hook :=
  {| connectionState := connecting; messages := []; errorText := None;
     wsRef := Some 5%nat; reconnectAttempts := 5;
     reconnectTimeoutRef := Some 5%nat; heartbeatIntervalRef := None;
     messageQueue := [];
     sockets := [CLOSED; CLOSED; CLOSED; CLOSED; CLOSED; CONNECTING];
     wire := []; timeouts := []; intervals := []; next_timer := 6 |}.

(** Every message of a concrete list resolves: evaluate the list, then each
    time. *)
Ltac all_resolvable :=
  lazymatch goal with
  | |- Forall resolvable ?l =>
      let v := eval vm_compute in l in
      replace l with v by (vm_compute; reflexivity)
  end;
  repeat (constructor; [eexists; vm_compute; reflexivity|]);
  constructor.

(** The actions one after the other, as long as each is permitted. *)
Fixpoint playAll `{Platform} (url : option jsstring) (acts : list action) (s : hook)
    : option hook :=
  match acts with
  | [] => Some s
  | a :: acts' =>
      if permitted a s then playAll url acts' (perform url a s) else None
  end.

(** A hook whose first channel has opened. *)
Definition opened : hook := handle url42 (EvOpen 0) (connect url42 initial).

(** The address of another chat, and an address that is no socket address. *)
Definition url43 : option jsstring := Some (lit "ws://localhost:8000/ws/43").
Definition url_http : option jsstring := Some (lit "http://localhost:8000/ws/42").

(** A text of 4001 letters. *)
Definition long_text : jsstring := repeat 97%N 4001.

(** A session: a message composed before the connection, the connection,
    two inbound frames, a message sent, a heartbeat, an abnormal close, the
    retry and a teardown. *)
Definition busy_session : list action :=
  [CallSend hello; CallConnect; Auto (EvOpen 0);
   Auto (EvMessage 0 (Object frame_apostrophe) ten_oclock);
   Auto (EvMessage 0 (Object frame_ampersand) ten_oclock);
   CallSend again; Auto (EvInterval 1); Auto (EvClose 0 1006);
   Auto (EvTimeout 2); CallDisconnect].

Definition busy_end : hook :=
  Eval vm_compute in default initial (playAll url42 busy_session initial).

(** A message composed while the first channel is connecting, two while
    the hook waits for its reconnect timer, a blank one among them, and one
    more once the timer has fired and the second channel is connecting. *)
Definition retry_session : list action :=
  [CallSend hello; Auto (EvClose 0 1006); CallSend blank; CallSend again;
   Auto (EvTimeout 1); Auto (EvError 1); CallSend hello].

Definition retry_end : hook :=
  Eval vm_compute in
    default initial (playAll url42 retry_session (connect url42 initial)).

(** The inbound frame number [i], and the stores of an opened hook that has
    received one frame, and frames 0 to 999. *)
Definition frame_number (i : nat) : Message :=
  message_of (NilZero.string_of_uint (Nat.to_uint i)) "tick"
    (FromJSON VUndefined) VUndefined.

Definition one_stored : hook :=
  handle url42 (EvMessage 0 (Object frame_ampersand) ten_oclock) opened.

Definition full_store : hook :=
  Eval vm_compute in
    fold_left (fun s i => handle url42 (EvMessage 0 (Object (frame_number i)) ten_oclock) s)
              (seq 0 1000) opened.

(** * Properties *)

(** ** The sanitizer *)

Lemma replace_same (c : N) (s : jsstring) : replace c [c] s = s.
Proof.
  unfold replace. induction s as [|x s IH]; simpl; [done|].
  destruct (N.eqb_spec x c) as [->|_]; simpl; by rewrite IH.
Qed.

(** What the four replacements amount to. *)
Lemma sanitizeMessage_unfold (content : jsstring) :
  sanitizeMessage content = trim (replace APOS (lit "&#x27;") content).
Proof. unfold sanitizeMessage. by rewrite !replace_same. Qed.

Lemma replace_absent (c : N) (rep s : jsstring) :
  Forall (fun x => x <> c) s -> replace c rep s = s.
Proof.
  unfold replace. induction 1 as [|x s Hx _ IH]; simpl; [done|].
  destruct (N.eqb_spec x c); [done|]. simpl. by rewrite IH.
Qed.

Lemma trimStart_Forall (P : N -> Prop) (s : jsstring) :
  Forall P s -> Forall P (trimStart s).
Proof.
  induction 1 as [|c s Hc Hs IH]; simpl; [constructor|].
  destruct (isWhiteSpace c); [done|]. by constructor.
Qed.

Lemma trim_Forall (P : N -> Prop) (s : jsstring) : Forall P s -> Forall P (trim s).
Proof.
  intros Hs. unfold trim, trimEnd.
  apply Forall_rev, trimStart_Forall, Forall_rev. by apply trimStart_Forall.
Qed.

(** No apostrophe survives the sanitizer. *)
Lemma sanitizeMessage_no_apostrophe (content : jsstring) :
  Forall (fun x => x <> APOS) (sanitizeMessage content).
Proof.
  rewrite sanitizeMessage_unfold. apply trim_Forall.
  unfold replace. induction content as [|x s IH]; simpl; [constructor|].
  destruct (N.eqb_spec x APOS) as [->|Hx].
  - apply Forall_app. split; [|done]. vm_compute.
    repeat constructor; discriminate.
  - simpl. by constructor.
Qed.

Lemma slice_last_snoc {A} (n : nat) (a : list A) (x : A) :
  (0 < n)%nat -> last (slice_last n (a ++ [x])) = Some x.
Proof.
  intros Hn. unfold slice_last.
  rewrite length_app. simpl.
  assert (Hle : (length a + 1 - n <= length a)%nat) by lia.
  rewrite skipn_app.
  replace (length a + 1 - n - length a)%nat with 0%nat by lia. simpl.
  by rewrite last_snoc.
Qed.

Lemma slice_last_length {A} (n : nat) (a : list A) :
  (length (slice_last n a) <= n)%nat.
Proof. unfold slice_last. rewrite length_skipn. lia. Qed.

Section Inbound.
Context `{Platform}.

(** An accepted frame ends up last in the store, sanitized. *)
Lemma onmessage_accepted (data : Message) (now : Z) (s : hook) :
  strict_eq (type data) (VStr (lit "pong")) = false ->
  validateMessage data = true ->
  last (messages (onmessage (Object data) now s)) = Some (sanitizedMessage now data).
Proof.
  intros Hpong Hvalid. unfold onmessage. rewrite Hpong, Hvalid. simpl.
  apply slice_last_snoc. unfold MAX_MESSAGES_BUFFER. lia.
Qed.

(** A frame that fails the validation leaves the store as it was. *)
Lemma onmessage_rejected (data : Message) (now : Z) (s : hook) :
  validateMessage data = false -> onmessage (Object data) now s = s.
Proof.
  intros Hvalid. unfold onmessage. rewrite Hvalid. simpl.
  by destruct (strict_eq _ _).
Qed.

(** The store never holds more than its capacity after a frame. *)
Lemma onmessage_bounded (data : decoded) (now : Z) (s : hook) :
  (length (messages s) <= MAX_MESSAGES_BUFFER)%nat ->
  (length (messages (onmessage data now s)) <= MAX_MESSAGES_BUFFER)%nat.
Proof.
  intros Hs. unfold onmessage.
  destruct data as [| | |o]; try done.
  destruct (strict_eq _ _); [done|].
  destruct (validateMessage o); simpl; [|done].
  apply slice_last_length.
Qed.

(** C1 (as amended): for every accepted inbound message whose content has
    none of the characters [<], [>] and the double quote, the content stored
    in the inbound store is the payload's content with each apostrophe
    replaced by [&#x27;] and then trimmed of the white space at its ends; an
    ampersand is stored as it came. *)
Theorem C1_stored_content (data : Message) (c : jsstring) (now : Z) (s : hook) :
  strict_eq (type data) (VStr (lit "pong")) = false ->
  validateMessage data = true ->
  content data = VStr c ->
  Forall (fun x => x <> LT /\ x <> GT /\ x <> QUOT) c ->
  exists m,
    last (messages (onmessage (Object data) now s)) = Some m
    /\ content m = VStr (trim (replace APOS (lit "&#x27;") c))
    /\ id m = id data
    /\ (Forall (fun x => x <> APOS) c -> content m = VStr (trim c)).
Proof.
  intros Hpong Hvalid Hc Hnone.
  exists (sanitizedMessage now data). split; [by apply onmessage_accepted|].
  unfold sanitizedMessage, content_text. simpl. rewrite Hc.
  unfold sanitizeMessage.
  rewrite (replace_absent LT), (replace_absent GT), (replace_absent QUOT);
    try (eapply Forall_impl; [exact Hnone|]; simpl; tauto).
  split; [done|]. split; [done|].
  intros Hno. by rewrite replace_absent.
Qed.

End Inbound.

(** The frame with the apostrophe is accepted and stored escaped and trimmed. *)
Lemma C1_stored_content_witness :
  exists m,
    last (messages (onmessage (Object frame_apostrophe) 1704103200000 initial)) = Some m
    /\ content m = VStr (trim (replace APOS (lit "&#x27;") (lit "  it's here ")))
    /\ id m = id frame_apostrophe
    /\ (Forall (fun x => x <> APOS) (lit "  it's here ") ->
        content m = VStr (trim (lit "  it's here "))).
Proof.
  apply (C1_stored_content frame_apostrophe (lit "  it's here ") 1704103200000 initial).
  - reflexivity.
  - reflexivity.
  - reflexivity.
  - vm_compute. repeat constructor; discriminate.
Defined.

(** C1, as stated, fails: an accepted frame with an ampersand is stored with
    the ampersand as it came, not in an escaped form. *)
Lemma C1_ampersand_stored_literally :
  validateMessage frame_ampersand = true
  /\ content <$> last (messages (onmessage (Object frame_ampersand) 0 initial))
     = Some (VStr (lit "Tom & Jerry")).
Proof. split; reflexivity. Qed.

(** The text of a script tag passes the sanitizer unchanged. *)
Example sanitizeMessage_script :
  sanitizeMessage (lit "<script>alert(1)</script>") = lit "<script>alert(1)</script>".
Proof. reflexivity. Qed.

Example sanitizeMessage_apostrophe :
  sanitizeMessage (lit "  it's here ") = lit "it&#x27;s here".
Proof. reflexivity. Qed.

(** ** Sorting *)

Section SortFacts.
Context {A : Type} (cmp : A -> A -> option Z).

Lemma insert_Permutation (x : A) (l : list A) :
  Permutation (insert cmp x l) (x :: l).
Proof.
  induction l as [|y l IH]; simpl; [done|].
  destruct (0 <? SortCompare cmp x y); [|done].
  rewrite IH. apply perm_swap.
Qed.

Lemma sort_Permutation (l : list A) : Permutation (sort cmp l) l.
Proof.
  induction l as [|x l IH]; simpl; [done|].
  rewrite insert_Permutation. by constructor.
Qed.

(** An element that is not greater than the head stays in front. *)
Lemma insert_front (x : A) (l : list A) :
  (forall y, head l = Some y -> SortCompare cmp x y <= 0) ->
  insert cmp x l = x :: l.
Proof.
  destruct l as [|y l]; simpl; [done|]. intros Hle.
  destruct (Z.ltb_spec 0 (SortCompare cmp x y)) as [Hgt|_]; [|done].
  specialize (Hle y eq_refl). lia.
Qed.

(** Where no element is greater than another, nothing moves. *)
Lemma sort_all_equal (l : list A) :
  (forall x y, In x l -> In y l -> SortCompare cmp x y <= 0) ->
  sort cmp l = l.
Proof.
  induction l as [|x l IH]; simpl; [done|]. intros Hle.
  rewrite IH by (intros; apply Hle; by right).
  apply insert_front. intros y Hy. apply Hle; [by left|].
  right. destruct l; simplify_eq/=. by left.
Qed.

(** On elements [P] that a measure [f] orders as the comparator does. *)
Variable f : A -> Z.
Variable P : A -> Prop.
Hypothesis cmp_sign :
  forall x y, P x -> P y -> (0 <? SortCompare cmp x y) = (f y <? f x).

Lemma insert_Forall (Q : A -> Prop) (x : A) (l : list A) :
  Q x -> Forall Q l -> Forall Q (insert cmp x l).
Proof.
  intros Hx Hl. eapply Permutation_Forall; [symmetry; apply insert_Permutation|].
  by constructor.
Qed.

Lemma sort_Forall (Q : A -> Prop) (l : list A) :
  Forall Q l -> Forall Q (sort cmp l).
Proof.
  intros Hl. eapply Permutation_Forall; [symmetry; apply sort_Permutation|done].
Qed.

Lemma insert_sorted (x : A) (l : list A) :
  P x -> Forall P l ->
  StronglySorted (fun a b => f a <= f b) l ->
  StronglySorted (fun a b => f a <= f b) (insert cmp x l).
Proof.
  intros Hx HP Hs. induction Hs as [|y l Hs IH Hy]; simpl.
  - repeat constructor.
  - inversion_clear HP as [|? ? Py Pl].
    rewrite cmp_sign by done.
    destruct (Z.ltb_spec (f y) (f x)) as [Hlt|Hge].
    + constructor; [by apply IH|].
      apply insert_Forall; [lia|done].
    + constructor; [by constructor|].
      constructor; [done|].
      eapply Forall_impl; [exact Hy|]. simpl. intros; lia.
Qed.

Lemma sort_sorted (l : list A) :
  Forall P l -> StronglySorted (fun a b => f a <= f b) (sort cmp l).
Proof.
  induction 1 as [|x l Hx Hl IH]; simpl; [constructor|].
  apply insert_sorted; [done| |done]. by apply sort_Forall.
Qed.

(** Selecting from the sorted array is sorting the selection: the sort keeps
    the order of the elements it does not tell apart. *)
Lemma filter_insert (q : A -> bool) (x : A) (l : list A) :
  P x -> Forall P l ->
  StronglySorted (fun a b => f a <= f b) l ->
  List.filter q (insert cmp x l)
  = if q x then insert cmp x (List.filter q l) else List.filter q l.
Proof.
  intros Hx HP Hs. induction Hs as [|y l Hs IH Hy]; simpl.
  - by destruct (q x).
  - inversion_clear HP as [|? ? Py Pl].
    rewrite cmp_sign by done.
    destruct (Z.ltb_spec (f y) (f x)) as [Hlt|Hge]; simpl.
    + rewrite IH by done.
      destruct (q y) eqn:Hqy, (q x) eqn:Hqx; simpl; try done.
      rewrite cmp_sign by done.
      by destruct (Z.ltb_spec (f y) (f x)); [|lia].
    + change (if q y then y :: List.filter q l else List.filter q l)
        with (List.filter q (y :: l)).
      destruct (q x) eqn:Hqx; [|done].
      symmetry. apply insert_front. intros z Hz.
      assert (Hin : In z (List.filter q (y :: l))).
      { destruct (List.filter q (y :: l)); simplify_eq/=. by left. }
      apply filter_In in Hin as [Hin _].
      assert (Pz : P z /\ f y <= f z).
      { destruct Hin as [->|Hin]; [split; [done|lia]|].
        rewrite Forall_forall in Pl, Hy. split; [apply Pl|apply Hy];
          by apply list_elem_of_In. }
      destruct Pz as [Pz Hyz].
      pose proof (cmp_sign x z Hx Pz) as Hsign.
      destruct (Z.ltb_spec 0 (SortCompare cmp x z)) as [Hgt|Hle]; [|lia].
      symmetry in Hsign. apply Z.ltb_lt in Hsign. lia.
Qed.

Lemma filter_sort (q : A -> bool) (l : list A) :
  Forall P l -> List.filter q (sort cmp l) = sort cmp (List.filter q l).
Proof.
  induction 1 as [|x l Hx Hl IH]; simpl; [done|].
  rewrite filter_insert; [|done|by apply sort_Forall|by apply sort_sorted].
  rewrite IH. by destruct (q x).
Qed.

End SortFacts.

(** ** Lists *)

Lemma findIndex_lower {A} (p : A -> bool) (a : list A) : -1 <= findIndex p a.
Proof.
  induction a as [|x a IH]; simpl; [lia|].
  destruct (p x); [lia|]. destruct (Z.ltb_spec (findIndex p a) 0); lia.
Qed.

Lemma findIndex_upper {A} (p : A -> bool) (a : list A) :
  findIndex p a < Z.of_nat (length a) \/ a = [].
Proof.
  induction a as [|x a IH]; simpl; [by right|]. left.
  destruct (p x); [lia|].
  destruct (Z.ltb_spec (findIndex p a) 0); [lia|].
  destruct IH as [IH| ->]; [lia|]. simpl in *. lia.
Qed.

(** The index found in an array that starts with [pre]. *)
Lemma findIndex_app {A} (p : A -> bool) (pre l : list A) :
  findIndex p (pre ++ l)
  = if existsb p pre then findIndex p pre
    else if findIndex p l <? 0 then -1
    else Z.of_nat (length pre) + findIndex p l.
Proof.
  induction pre as [|x pre IH]; simpl.
  - destruct (Z.ltb_spec (findIndex p l) 0) as [Hlt|Hge]; [|lia].
    pose proof (findIndex_lower p l). lia.
  - destruct (p x); simpl; [done|]. rewrite IH.
    destruct (existsb p pre); [done|].
    destruct (Z.ltb_spec (findIndex p l) 0); [done|].
    destruct (Z.ltb_spec (Z.of_nat (length pre) + findIndex p l) 0); lia.
Qed.

Lemma filter_sublist {A} (q : A -> bool) (l1 l2 : list A) :
  sublist l1 l2 -> sublist (List.filter q l1) (List.filter q l2).
Proof.
  induction 1 as [|x l1 l2 _ IH|x l1 l2 _ IH]; simpl.
  - constructor.
  - destruct (q x); [by constructor|done].
  - destruct (q x); [by constructor|done].
Qed.

Lemma sublist_In {A} (l1 l2 : list A) (x : A) :
  sublist l1 l2 -> In x l1 -> In x l2.
Proof.
  intros Hsub Hin. apply list_elem_of_In.
  eapply sublist_subseteq; [exact Hsub|]. by apply list_elem_of_In.
Qed.

Lemma StronglySorted_sublist {A} (R : A -> A -> Prop) (l1 l2 : list A) :
  sublist l1 l2 -> StronglySorted R l2 -> StronglySorted R l1.
Proof.
  induction 1 as [|x l1 l2 Hsub IH|x l1 l2 Hsub IH]; intros Hs.
  - constructor.
  - inversion_clear Hs as [|? ? Hs' Hx]. constructor; [by apply IH|].
    rewrite Forall_forall in Hx |- *. intros y Hy. apply Hx.
    eapply sublist_subseteq; [exact Hsub|done].
  - inversion_clear Hs as [|? ? Hs' Hx]. by apply IH.
Qed.

Lemma StronglySorted_weaken {A} (R R' : A -> A -> Prop) (l : list A) :
  (forall x y, In x l -> In y l -> R x y -> R' x y) ->
  StronglySorted R l -> StronglySorted R' l.
Proof.
  intros HR Hs. induction Hs as [|x l Hs IH Hx]; constructor.
  - apply IH. intros; apply HR; by try right.
  - rewrite Forall_forall in Hx |- *. intros y Hy.
    apply HR; [by left|right; by apply list_elem_of_In|by apply Hx].
Qed.

(** ** The merged feed *)

Section FeedFacts.
Context `{Platform}.

Lemma has_key_true (k : jsstring) (m : Message) : has_key k m = true <-> key m = k.
Proof. unfold has_key, jsstring_eqb. apply bool_decide_eq_true. Qed.

Lemma has_key_self (m : Message) : has_key (key m) m = true.
Proof. by apply has_key_true. Qed.

(** Line 65 keeps exactly the first element of each key. *)
Lemma filter_from_keepFirst (a pre l : list Message) (i : nat) :
  a = pre ++ l -> i = length pre ->
  filter_from
    (fun v i => findIndex (fun t => jsstring_eqb (key t) (key v)) a =? Z.of_nat i)
    i l
  = keepFirst pre l.
Proof.
  revert pre i. induction l as [|v l IH]; intros pre i -> ->; simpl; [done|].
  rewrite (IH (pre ++ [v])); [|by rewrite <- app_assoc|rewrite length_app; simpl; lia].
  change (fun t : Message => jsstring_eqb (key t) (key v)) with (has_key (key v)).
  rewrite findIndex_app. simpl. rewrite has_key_self. simpl.
  destruct (existsb (has_key (key v)) pre) eqn:Hex.
  - pose proof (findIndex_upper (has_key (key v)) pre) as [Hup| ->]; [|done].
    destruct (Z.eqb_spec (findIndex (has_key (key v)) pre) (Z.of_nat (length pre)));
      [lia|done].
  - by rewrite Z.add_0_r, Z.eqb_refl.
Qed.

Lemma uniqueMessages_keepFirst (a : list Message) : uniqueMessages a = keepFirst [] a.
Proof. unfold uniqueMessages, filter_indexed. by apply (filter_from_keepFirst a [] a). Qed.

Lemma keepFirst_sublist (seen l : list Message) : sublist (keepFirst seen l) l.
Proof.
  revert seen. induction l as [|v l IH]; intros seen; simpl; [constructor|].
  destruct (existsb _ seen); by constructor.
Qed.

Lemma keepFirst_unseen (seen l : list Message) (m : Message) :
  In m (keepFirst seen l) -> existsb (has_key (key m)) seen = false.
Proof.
  revert seen. induction l as [|v l IH]; intros seen; simpl; [done|].
  assert (Hrest : In m (keepFirst (seen ++ [v]) l) ->
                  existsb (has_key (key m)) seen = false).
  { intros Hin. apply IH in Hin. rewrite existsb_app in Hin.
    by apply orb_false_elim in Hin as [? _]. }
  destruct (existsb (has_key (key v)) seen) eqn:Hex; [done|].
  intros [->|Hin]; [done|by apply Hrest].
Qed.

Lemma keepFirst_NoDup (seen l : list Message) :
  NoDup (List.map key (keepFirst seen l)).
Proof.
  revert seen. induction l as [|v l IH]; intros seen; simpl; [constructor|].
  destruct (existsb (has_key (key v)) seen); [done|]. simpl.
  constructor; [|done].
  rewrite list_elem_of_In, in_map_iff. intros (m & Hkey & Hin).
  apply keepFirst_unseen in Hin. rewrite existsb_app in Hin. simpl in Hin.
  apply orb_false_elim in Hin as [_ Hin]. rewrite orb_false_r in Hin.
  rewrite Hkey in Hin. by rewrite has_key_self in Hin.
Qed.

(** Of the elements with one key, the feed keeps the first, if none was
    seen before. *)
Lemma keepFirst_filter (k : jsstring) (seen l : list Message) :
  List.filter (has_key k) (keepFirst seen l)
  = if existsb (has_key k) seen then []
    else firstn 1 (List.filter (has_key k) l).
Proof.
  revert seen. induction l as [|v l IH]; intros seen.
  - simpl. by destruct (existsb _ seen).
  - pose proof (IH (seen ++ [v])) as IH'.
    rewrite existsb_app in IH'. cbn [existsb] in IH'. rewrite orb_false_r in IH'.
    cbn [keepFirst List.filter].
    destruct (existsb (has_key (key v)) seen) eqn:Hv.
    + rewrite IH'. destruct (existsb (has_key k) seen) eqn:Hk; [done|].
      destruct (has_key k v) eqn:Hkv; [|done].
      apply has_key_true in Hkv. subst k. congruence.
    + cbn [List.filter]. destruct (has_key k v) eqn:Hkv.
      * rewrite IH', orb_true_r.
        apply has_key_true in Hkv. subst k. by rewrite Hv.
      * rewrite IH'. by rewrite orb_false_r.
Qed.

Lemma SortCompare_resolvable (x y : Message) :
  resolvable x -> resolvable y ->
  (0 <? SortCompare comparefn x y) = (time_value y <? time_value x).
Proof.
  unfold resolvable, SortCompare, comparefn, time_value.
  intros [a ->] [b ->]. simpl.
  destruct (Z.ltb_spec 0 (a - b)), (Z.ltb_spec b a); done || lia.
Qed.

(** A message whose timestamp does not resolve compares as equal to every
    message: the comparator returns NaN. *)
Lemma SortCompare_unresolved (x y : Message) :
  time x = None \/ time y = None -> SortCompare comparefn x y = 0.
Proof.
  unfold SortCompare, comparefn. intros [-> | ->]; [done|].
  by destruct (time x).
Qed.

Lemma SortCompare_same_time (x y : Message) :
  time x = time y -> SortCompare comparefn x y = 0.
Proof.
  unfold SortCompare, comparefn. intros ->. destruct (time y); [|done].
  f_equal. lia.
Qed.

Lemma MergedFeed_sublist (chat : jsval) (chatHistory messages : list Message) :
  sublist (MergedFeed chat chatHistory messages)
          (allMessages chat chatHistory messages).
Proof. unfold MergedFeed. rewrite uniqueMessages_keepFirst. apply keepFirst_sublist. Qed.

Lemma MergedFeed_incl (chat : jsval) (chatHistory messages : list Message) (m : Message) :
  In m (MergedFeed chat chatHistory messages) ->
  In m (concatenated chat chatHistory messages).
Proof.
  intros Hin. eapply sublist_In in Hin; [|apply MergedFeed_sublist].
  unfold allMessages in Hin.
  eapply Permutation_in; [apply sort_Permutation|exact Hin].
Qed.

End FeedFacts.

Section FeedTheorems.
Context `{Platform}.

(** C2 (as amended): for every history and every live list whose timestamps
    all resolve, the merged feed is sorted non-decreasing by the time the
    comparator reads from a message ([created_at] when truthy, [timestamp]
    otherwise, printed and parsed again, a [Date] thereby cut to the whole
    second), and the messages of one such time appear in the order they
    have in the concatenation of the history and the live messages of the
    chat (the history first); the ids play no part in the order. *)
Theorem C2_sorted_ties_in_input_order (chat : jsval) (chatHistory messages : list Message) :
  Forall resolvable (concatenated chat chatHistory messages) ->
  StronglySorted time_le (MergedFeed chat chatHistory messages)
  /\ forall t,
       sublist (List.filter (at_time t) (MergedFeed chat chatHistory messages))
               (List.filter (at_time t) (concatenated chat chatHistory messages)).
Proof.
  intros Hres. split.
  - eapply StronglySorted_sublist; [apply MergedFeed_sublist|].
    eapply (StronglySorted_weaken (fun a b => time_value a <= time_value b)).
    + unfold time_le, time_value. intros x y _ _ Hle a b Ha Hb.
      by rewrite Ha, Hb in Hle.
    + unfold allMessages.
      by apply (sort_sorted comparefn time_value resolvable SortCompare_resolvable).
  - intros t.
    assert (Hsame : List.filter (at_time t) (allMessages chat chatHistory messages)
                    = List.filter (at_time t) (concatenated chat chatHistory messages)).
    { unfold allMessages.
      rewrite (filter_sort comparefn time_value resolvable SortCompare_resolvable) by done.
      apply sort_all_equal. intros x y [_ Hx]%filter_In [_ Hy]%filter_In.
      unfold at_time in Hx, Hy.
      apply bool_decide_eq_true in Hx, Hy.
      rewrite SortCompare_same_time; [done|congruence]. }
    rewrite <- Hsame. apply filter_sublist, MergedFeed_sublist.
Qed.

(** C3 (as amended): for an id that occurs once in the history and once
    among the live messages of the chat, all timestamps resolving, the
    representative kept in the merged feed is the copy that sorts first: the
    live copy when its time is strictly earlier, the history's copy
    otherwise, so also when the two times are equal. *)
Theorem C3_representative_sorts_first
    (chat : jsval) (chatHistory messages : list Message)
    (k : jsstring) (h l : Message) :
  Forall resolvable (concatenated chat chatHistory messages) ->
  List.filter (has_key k) chatHistory = [h] ->
  List.filter (has_key k) (liveOfChat chat messages) = [l] ->
  List.filter (has_key k) (MergedFeed chat chatHistory messages)
  = [if time_value l <? time_value h then l else h].
Proof.
  intros Hres Hh Hl.
  assert (Hin : forall m, In m [h; l] -> resolvable m).
  { rewrite Forall_forall in Hres. intros m Hm. apply Hres, list_elem_of_In.
    unfold concatenated. apply in_or_app.
    destruct Hm as [<-|[<-|[]]].
    - left. eapply proj1, filter_In. rewrite Hh. by left.
    - right. eapply proj1, filter_In. rewrite Hl. by left. }
  unfold MergedFeed. rewrite uniqueMessages_keepFirst, keepFirst_filter. simpl existsb.
  cbv iota. unfold allMessages.
  rewrite (filter_sort comparefn time_value resolvable SortCompare_resolvable) by done.
  unfold concatenated. rewrite List.filter_app, Hh, Hl. simpl.
  rewrite SortCompare_resolvable by (apply Hin; simpl; tauto).
  by destruct (time_value l <? time_value h).
Qed.

(** C4: for every history and every live list, with whatever duplicates, no
    key (the text of an id) and hence no id occurs twice in the merged
    feed. *)
Theorem C4_ids_unique (chat : jsval) (chatHistory messages : list Message) :
  NoDup (List.map key (MergedFeed chat chatHistory messages))
  /\ NoDup (List.map id (MergedFeed chat chatHistory messages)).
Proof.
  assert (Hkeys : NoDup (List.map key (MergedFeed chat chatHistory messages))).
  { unfold MergedFeed. rewrite uniqueMessages_keepFirst. apply keepFirst_NoDup. }
  split; [done|].
  apply NoDup_ListNoDup, (NoDup_map_inv ToString). rewrite List.map_map.
  by apply NoDup_ListNoDup.
Qed.

(** C9 (as amended): the merge is defined on every pair of lists; for every
    pair its feed is made of input messages and represents every input id.
    A message whose timestamp is missing or unparseable is not put last: the
    comparator returns NaN for it, which the sort takes for equal, and where
    every two input messages are equal in this way or by their times the
    feed is the concatenation in its own order, less the repeated ids. *)
Theorem C9_unresolved_keep_their_place (chat : jsval) (chatHistory messages : list Message) :
  (forall m, In m (MergedFeed chat chatHistory messages) ->
             In m (concatenated chat chatHistory messages))
  /\ (forall m, In m (concatenated chat chatHistory messages) ->
                exists m', In m' (MergedFeed chat chatHistory messages)
                           /\ key m' = key m)
  /\ ((forall a b,
         In a (concatenated chat chatHistory messages) ->
         In b (concatenated chat chatHistory messages) ->
         time a = None \/ time b = None \/ time a = time b) ->
      MergedFeed chat chatHistory messages
      = uniqueMessages (concatenated chat chatHistory messages)).
Proof.
  split; [|split].
  - apply MergedFeed_incl.
  - intros m Hm.
    pose proof (keepFirst_filter (key m) [] (allMessages chat chatHistory messages)) as Hf.
    simpl in Hf. rewrite <- uniqueMessages_keepFirst in Hf.
    fold (MergedFeed chat chatHistory messages) in Hf.
    assert (Hsorted : In m (List.filter (has_key (key m)) (allMessages chat chatHistory messages))).
    { apply filter_In. split; [|apply has_key_self].
      eapply Permutation_in; [symmetry; apply sort_Permutation|exact Hm]. }
    destruct (List.filter (has_key (key m)) (allMessages chat chatHistory messages))
      as [|m' rest]; [done|].
    simpl in Hf. exists m'.
    assert (Hm' : In m' (List.filter (has_key (key m)) (MergedFeed chat chatHistory messages)))
      by (rewrite Hf; by left).
    apply filter_In in Hm' as [? Hk]. split; [done|by apply has_key_true].
  - intros Heq. unfold MergedFeed, allMessages. f_equal. apply sort_all_equal.
    intros x y Hx Hy.
    destruct (Heq x y Hx Hy) as [Hn|[Hn|Hn]].
    + rewrite SortCompare_unresolved; [done|by left].
    + rewrite SortCompare_unresolved; [done|by right].
    + by rewrite SortCompare_same_time.
Qed.

End FeedTheorems.

Lemma C2_sorted_ties_in_input_order_witness :
  StronglySorted time_le (MergedFeed chat42 [history_c; history_a] [live_b; live_a])
  /\ forall t,
       sublist (List.filter (at_time t) (MergedFeed chat42 [history_c; history_a] [live_b; live_a]))
               (List.filter (at_time t) (concatenated chat42 [history_c; history_a] [live_b; live_a])).
Proof.
  apply (C2_sorted_ties_in_input_order chat42 [history_c; history_a] [live_b; live_a]).
  all_resolvable.
Defined.

(** C2, as stated, fails: two messages of one instant come out in the order
    they went in, whichever of the two ids is the smaller; and two live
    messages within one second come out as they went in, the later first,
    the comparator reading both at the whole second. *)
Lemma C2_ties_not_by_id :
  time live_a = time live_b
  /\ MergedFeed chat42 [] [live_b; live_a] = [live_b; live_a]
  /\ MergedFeed chat42 [] [live_a; live_b] = [live_a; live_b]
  /\ timestamp live_900 = DateObj (Some (ten_oclock + 900))
  /\ timestamp live_100 = DateObj (Some (ten_oclock + 100))
  /\ MergedFeed chat42 [] [live_900; live_100] = [live_900; live_100].
Proof. repeat split; vm_compute; reflexivity. Qed.

Lemma C3_representative_sorts_first_witness :
  List.filter (has_key (lit "a")) (MergedFeed chat42 [history_c; history_a] [live_b; live_a])
  = [if time_value live_a <? time_value history_a then live_a else history_a].
Proof.
  apply (C3_representative_sorts_first chat42 [history_c; history_a] [live_b; live_a]).
  - all_resolvable.
  - vm_compute; reflexivity.
  - vm_compute; reflexivity.
Defined.

(** C3, as stated, fails: an id with a history copy and a live copy of the
    same instant is represented by the history's copy. *)
Lemma C3_history_copy_kept :
  time history_a = Some ten_oclock
  /\ time live_a = Some ten_oclock
  /\ MergedFeed chat42 [history_a] [live_a] = [history_a].
Proof. repeat split; vm_compute; reflexivity. Qed.

Lemma C9_unresolved_keep_their_place_witness :
  (forall m, In m (MergedFeed chat42 [undated_x; history_a] [live_b]) ->
             In m (concatenated chat42 [undated_x; history_a] [live_b]))
  /\ (forall m, In m (concatenated chat42 [undated_x; history_a] [live_b]) ->
                exists m', In m' (MergedFeed chat42 [undated_x; history_a] [live_b])
                           /\ key m' = key m)
  /\ MergedFeed chat42 [undated_x; history_a] [live_b]
     = uniqueMessages (concatenated chat42 [undated_x; history_a] [live_b]).
Proof.
  destruct (C9_unresolved_keep_their_place chat42 [undated_x; history_a] [live_b])
    as (Hin & Hrep & Hsame).
  split; [exact Hin|]. split; [exact Hrep|]. apply Hsame.
  intros a b [<-|[<-|[<-|[]]]] [<-|[<-|[<-|[]]]]; vm_compute; tauto.
Defined.

(** C9, as stated, fails: a record without a date stays in front of a record
    with one. *)
Lemma C9_undated_not_last :
  time undated_x = None
  /\ time history_a = Some ten_oclock
  /\ MergedFeed chat42 [undated_x; history_a] [] = [undated_x; history_a].
Proof. repeat split; vm_compute; reflexivity. Qed.

(** The scenario of the specification: the live copy of [b] is later than the
    history's and two ids are shared. *)
Example MergedFeed_scenario :
  List.map key (MergedFeed chat42 [history_a; history_c] [live_b; live_a])
  = [lit "a"; lit "b"; lit "c"]
  /\ MergedFeed chat42 [history_a; history_c] [live_b; live_a]
     = [history_a; live_b; history_c].
Proof. split; vm_compute; reflexivity. Qed.

(** ** The connection state machine *)

Lemma readyState_is_insert (n m : nat) (r r' : ReadyState) (s : hook) :
  readyState_is n r (set_sockets (<[m := r']> (sockets s)) s)
  = if decide (n = m) then
      bool_decide (r = r') && bool_decide (is_Some (sockets s !! n))
    else readyState_is n r s.
Proof.
  unfold readyState_is. simpl. destruct (decide (n = m)) as [->|Hne].
  - destruct (sockets s !! m) as [r0|] eqn:Hm.
    + rewrite list_lookup_insert_eq by (by eapply lookup_lt_Some).
      rewrite (bool_decide_eq_true_2 (is_Some (Some r0))) by by eexists.
      rewrite andb_true_r. apply bool_decide_ext. naive_solver.
    + rewrite list_insert_ge by (by apply lookup_ge_None). rewrite Hm.
      rewrite (bool_decide_eq_false_2 (is_Some None)) by (by intros [? ?]).
      rewrite andb_false_r. by apply bool_decide_eq_false_2.
  - by rewrite list_lookup_insert_ne.
Qed.

Lemma live_insert_closed (n m : nat) (s : hook) :
  live n s = false ->
  live n (set_sockets (<[m := CLOSED]> (sockets s)) s) = false.
Proof.
  unfold live. rewrite !readyState_is_insert.
  destruct (decide (n = m)); [|done]. intros _.
  by rewrite !(bool_decide_eq_false_2 (_ = CLOSED)).
Qed.

Section Machine.
Context `{Platform}.
Variable url : option jsstring.

(** stopHeartbeat touches only the heartbeat's interval. *)
Lemma stopHeartbeat_frame (s : hook) :
  let s' := stopHeartbeat s in
  connectionState s' = connectionState s /\ errorText s' = errorText s
  /\ reconnectAttempts s' = reconnectAttempts s /\ timeouts s' = timeouts s
  /\ next_timer s' = next_timer s /\ sockets s' = sockets s
  /\ wsRef s' = wsRef s /\ wire s' = wire s /\ messageQueue s' = messageQueue s
  /\ reconnectTimeoutRef s' = reconnectTimeoutRef s
  /\ heartbeatIntervalRef s' = None.
Proof.
  unfold stopHeartbeat. destruct (heartbeatIntervalRef s) eqn:Hh; simpl; by repeat split.
Qed.

(** What a close does when the counter is at the ceiling or the code is one
    of the two rejections: no timer, the counter as it was. *)
Lemma onclose_no_retry (code : Z) (s : hook) :
  code = 4001 \/ code = 4003 \/ code = 1000
  \/ (MAX_RECONNECT_ATTEMPTS <= reconnectAttempts s)%nat ->
  let s' := onclose code s in
  connectionState s' = disconnected
  /\ timeouts s' = timeouts s
  /\ next_timer s' = next_timer s
  /\ reconnectAttempts s' = reconnectAttempts s
  /\ reconnectTimeoutRef s' = reconnectTimeoutRef s
  /\ sockets s' = sockets s /\ wsRef s' = wsRef s.
Proof.
  intros Hcase. unfold onclose.
  destruct (stopHeartbeat_frame (setConnectionState disconnected s))
    as (Hc & _ & Ha & Ht & Hn & Hs & Hw & _ & _ & Hr & _).
  simpl in Hc, Ha, Ht, Hn, Hs, Hw, Hr. cbv zeta.
  destruct (code =? 4001) eqn:E1; [simpl; by repeat split|].
  destruct (code =? 4003) eqn:E3; [simpl; by repeat split|].
  assert (Hretry : negb (code =? 1000)
                   && (reconnectAttempts (stopHeartbeat (setConnectionState disconnected s))
                       <? MAX_RECONNECT_ATTEMPTS)%nat = false).
  { rewrite Ha. destruct Hcase as [->|[->|[->|Hmax]]]; try done.
    apply andb_false_intro2. apply Nat.ltb_ge. lia. }
  rewrite Hretry.
  destruct (_ <=? _)%nat; simpl; by repeat split.
Qed.

(** C6: for every close event with one of the two rejection codes no
    reconnect timer is scheduled, the retry counter keeps its value, a
    diagnostic for the user is set, and the connection state is
    [disconnected], so not [reconnecting]. *)
Theorem C6_rejection_not_retried (ws : nat) (code : Z) (s : hook) :
  code = 4001 \/ code = 4003 ->
  let s' := handle url (EvClose ws code) s in
  timeouts s' = timeouts s
  /\ next_timer s' = next_timer s
  /\ reconnectAttempts s' = reconnectAttempts s
  /\ errorText s'
     = Some (if code =? 4001 then "Authentication failed. Please log in again."%string
             else "Rate limit exceeded. Please slow down."%string)
  /\ connectionState s' = disconnected
  /\ connectionState s' <> reconnecting.
Proof.
  intros Hcode. cbv zeta. unfold handle.
  set (s0 := set_sockets (<[ws := CLOSED]> (sockets s)) s).
  destruct (onclose_no_retry code s0) as (Hc & Ht & Hn & Ha & _);
    [tauto|].
  rewrite Hc, Ht, Hn, Ha. repeat split; try done.
  unfold onclose. destruct Hcode as [-> | ->]; by simpl.
Qed.

Lemma given_up_step (e : event) (s : hook) :
  given_up s -> enabled e s = true -> given_up (handle url e s).
Proof.
  intros (Hmax & Ht & Hlive & Hstate) Hen. destruct e as [ws|ws code|ws|ws d now|t|t]; simpl in *.
  - specialize (Hlive ws). unfold live in Hlive. by rewrite Hen in Hlive.
  - set (s0 := set_sockets (<[ws := CLOSED]> (sockets s)) s).
    destruct (onclose_no_retry code s0) as (Hc & Ht' & _ & Ha & _ & Hs & _);
      [by repeat right|].
    repeat split.
    + by rewrite Ha.
    + by rewrite Ht'.
    + intros n. unfold live, readyState_is. rewrite Hs.
      apply (live_insert_closed n ws s), Hlive.
    + by left.
  - unfold onerror. repeat split; try done. by right.
  - unfold onmessage. destruct d as [| | |o]; try done.
    destruct (strict_eq _ _); [done|]. by destruct (validateMessage o).
  - by rewrite Ht in Hen.
  - unfold heartbeat. destruct (wsRef s) as [n|]; [|done].
    destruct (readyState_is n OPEN s); done.
Qed.

Lemma given_up_run (es : list event) (s s' : hook) :
  given_up s -> run url s es s' -> given_up s'.
Proof.
  intros Hg Hrun. induction Hrun as [|s e es s' Hen _ IH]; [done|].
  by apply IH, given_up_step.
Qed.

(** C5 (as amended): whenever the retry counter has reached the ceiling and
    a channel closes with a code other than the two rejection codes, the
    connection state becomes [disconnected] (the handler never sets [error]),
    the terminal diagnostic is recorded and the close schedules no reconnect
    timer; if moreover no timeout is pending and no other channel is live at
    that point, no event that follows schedules one: the state stays
    [disconnected] or [error] and the counter at or above the ceiling. *)
Theorem C5_ceiling_stops_retrying (ws : nat) (code : Z) (s : hook) :
  (MAX_RECONNECT_ATTEMPTS <= reconnectAttempts s)%nat ->
  code <> 4001 -> code <> 4003 ->
  let s' := handle url (EvClose ws code) s in
  connectionState s' = disconnected
  /\ errorText s'
     = Some "Connection failed after multiple attempts. Please refresh the page."%string
  /\ timeouts s' = timeouts s
  /\ reconnectAttempts s' = reconnectAttempts s
  /\ (timeouts s = [] ->
      (forall n, n <> ws -> live n s = false) ->
      forall es s'', run url s' es s'' ->
        timeouts s'' = []
        /\ (MAX_RECONNECT_ATTEMPTS <= reconnectAttempts s'')%nat
        /\ (connectionState s'' = disconnected \/ connectionState s'' = error)).
Proof.
  intros Hmax H1 H3. cbv zeta. unfold handle.
  set (s0 := set_sockets (<[ws := CLOSED]> (sockets s)) s).
  destruct (onclose_no_retry code s0) as (Hc & Ht & Hn & Ha & _ & Hs & _);
    [by repeat right|].
  assert (Herr : errorText (onclose code s0)
                 = Some "Connection failed after multiple attempts. Please refresh the page."%string).
  { unfold onclose. cbv zeta.
    destruct (stopHeartbeat_frame (setConnectionState disconnected s0))
      as (_ & _ & Hsa & _).
    rewrite (proj2 (Z.eqb_neq code 4001) H1), (proj2 (Z.eqb_neq code 4003) H3).
    rewrite Hsa. simpl reconnectAttempts.
    replace (reconnectAttempts s <? MAX_RECONNECT_ATTEMPTS)%nat with false
      by (symmetry; apply Nat.ltb_ge; lia).
    rewrite andb_false_r.
    replace (MAX_RECONNECT_ATTEMPTS <=? reconnectAttempts s)%nat with true
      by (symmetry; apply Nat.leb_le; lia).
    done. }
  split; [done|]. split; [done|]. split; [done|]. split; [done|].
  intros Hnone Hothers es s'' Hrun.
  assert (Hg : given_up (onclose code s0)).
  { repeat split; [by rewrite Ha|by rewrite Ht| |by left].
    intros n. unfold live, readyState_is. rewrite Hs.
    fold (readyState_is n CONNECTING s0). fold (readyState_is n OPEN s0).
    unfold s0. rewrite !readyState_is_insert.
    destruct (decide (n = ws)) as [->|Hne]; [|by apply Hothers].
    by rewrite !(bool_decide_eq_false_2 (_ = CLOSED)). }
  by destruct (given_up_run es _ s'' Hg Hrun) as (? & ? & ? & ?).
Qed.

End Machine.

Example five_retries_reach_ceiling :
  play url42 five_retries (connect url42 initial) = Some at_ceiling.
Proof. vm_compute. reflexivity. Qed.

Lemma C5_ceiling_stops_retrying_witness :
  let s' := handle url42 (EvClose 5 1006) at_ceiling in
  connectionState s' = disconnected
  /\ errorText s'
     = Some "Connection failed after multiple attempts. Please refresh the page."%string
  /\ timeouts s' = timeouts at_ceiling
  /\ reconnectAttempts s' = reconnectAttempts at_ceiling
  /\ (forall es s'', run url42 s' es s'' ->
        timeouts s'' = []
        /\ (MAX_RECONNECT_ATTEMPTS <= reconnectAttempts s'')%nat
        /\ (connectionState s'' = disconnected \/ connectionState s'' = error)).
Proof.
  destruct (C5_ceiling_stops_retrying url42 5 1006 at_ceiling)
    as (Hstate & Htext & Htimers & Hcount & Hlater).
  - vm_compute. lia.
  - lia.
  - lia.
  - repeat (split; [assumption|]).
    apply Hlater; [reflexivity|].
    intros n Hn.
    do 6 (destruct n as [|n]; [reflexivity || contradiction|]).
    reflexivity.
Defined.

(** C5, as stated, fails: after five retries the close of the last channel
    leaves the state [disconnected], not [error]. *)
Lemma C5_state_is_disconnected :
  connectionState <$> play url42 (five_retries ++ [EvClose 5 1006]) (connect url42 initial)
  = Some disconnected
  /\ reconnectAttempts <$> play url42 five_retries (connect url42 initial)
     = Some MAX_RECONNECT_ATTEMPTS.
Proof. split; vm_compute; reflexivity. Qed.

Lemma C6_rejection_not_retried_witness :
  let s' := handle url42 (EvClose 5 4001) at_ceiling in
  timeouts s' = timeouts at_ceiling
  /\ next_timer s' = next_timer at_ceiling
  /\ reconnectAttempts s' = reconnectAttempts at_ceiling
  /\ errorText s'
     = Some (if 4001 =? 4001 then "Authentication failed. Please log in again."%string
             else "Rate limit exceeded. Please slow down."%string)
  /\ connectionState s' = disconnected
  /\ connectionState s' <> reconnecting.
Proof.
  apply (C6_rejection_not_retried url42 5 4001 at_ceiling).
  left. reflexivity.
Defined.

(** A first close with a rejection code, counter at zero: no retry either. *)
Example rejection_on_first_channel :
  (fun s => (connectionState s, reconnectAttempts s, timeouts s))
    <$> play url42 [EvOpen 0; EvClose 0 4003] (connect url42 initial)
  = Some (disconnected, 0%nat, []).
Proof. vm_compute. reflexivity. Qed.

(** An abnormal close below the ceiling schedules the retry. *)
Example abnormal_close_retries :
  (fun s => (connectionState s, reconnectAttempts s, timeouts s))
    <$> play url42 [EvOpen 0; EvClose 0 1006] (connect url42 initial)
  = Some (reconnecting, 0%nat, [(2%nat, 1000)]).
Proof. vm_compute. reflexivity. Qed.

(** ** Channels and teardown *)

Section Channels.
Context `{Platform}.
Variable url : option jsstring.

Lemma disconnect_refs (s : hook) :
  wsRef (disconnect s) = None
  /\ reconnectTimeoutRef (disconnect s) = None
  /\ heartbeatIntervalRef (disconnect s) = None
  /\ reconnectAttempts (disconnect s) = 0%nat
  /\ connectionState (disconnect s) = disconnected.
Proof.
  destruct s as [cs ms et wr ra rt hb mq so wi ts ivs nt].
  unfold disconnect, stopHeartbeat. simpl.
  destruct rt, hb; simpl; destruct wr as [cur|]; simpl; unfold close; simpl;
    try destruct (so !! cur) as [[]|]; simpl; by repeat split.
Qed.

Lemma disconnect_closes (s : hook) (n : nat) :
  wsRef s = Some n -> live n (disconnect s) = false.
Proof.
  destruct s as [cs ms et wr ra rt hb mq so wi ts ivs nt]. simpl. intros ->.
  unfold disconnect, stopHeartbeat, live, readyState_is. simpl.
  destruct rt, hb; simpl; unfold close; simpl;
    destruct (so !! n) as [[]|] eqn:Hn; simpl;
    rewrite ?list_lookup_insert_eq by (by eapply lookup_lt_Some);
    rewrite ?Hn; done.
Qed.

Lemma disconnect_cancels (s : hook) (t : nat) :
  reconnectTimeoutRef s = Some t -> enabled (EvTimeout t) (disconnect s) = false.
Proof.
  destruct s as [cs ms et wr ra rt hb mq so wi ts ivs nt]. simpl. intros ->.
  assert (Hclear : existsb (fun p : nat * Z => Nat.eqb (fst p) t)
            (List.filter (fun p : nat * Z => negb (Nat.eqb (fst p) t)) ts) = false).
  { induction ts as [|p l IH]; simpl; [done|].
    destruct (Nat.eqb (fst p) t) eqn:Hp; simpl; [done|]. by rewrite Hp. }
  unfold disconnect, stopHeartbeat. simpl.
  destruct hb; simpl; destruct wr as [cur|]; simpl; unfold close; simpl;
    try destruct (so !! cur) as [[]|]; done.
Qed.


End Channels.


(** With the current channel open, [connect] does nothing. *)
Example connect_when_open :
  let s := handle url42 (EvOpen 0) (connect url42 initial) in
  wsOpen s = true /\ connect url42 s = s.
Proof. split; vm_compute; reflexivity. Qed.

(** ** The outbound queue *)

Lemma validContent_checks (content : jsstring) :
  validContent content
  = negb (Nat.eqb (length (trim content)) 0)
    && negb (MAX_MESSAGE_LENGTH <? Z.of_nat (length content)).
Proof. unfold validContent. by rewrite Z.leb_antisym. Qed.

(** The three outcomes of [sendMessage]. *)
Lemma compose_rejected (c : composed) (s : hook) :
  validContent (text c) = false ->
  snd (compose c s) = false
  /\ messageQueue (fst (compose c s)) = messageQueue s
  /\ wire (fst (compose c s)) = wire s
  /\ sockets (fst (compose c s)) = sockets s
  /\ wsRef (fst (compose c s)) = wsRef s.
Proof.
  rewrite validContent_checks. unfold compose, sendMessage.
  destruct (Nat.eqb (length (trim (text c))) 0); [done|].
  by destruct (MAX_MESSAGE_LENGTH <? Z.of_nat (length (text c))).
Qed.

Lemma compose_sent (c : composed) (s : hook) (ws : nat) :
  validContent (text c) = true ->
  wsRef s = Some ws -> readyState_is ws OPEN s = true ->
  snd (compose c s) = true
  /\ messageQueue (fst (compose c s)) = messageQueue s
  /\ wire (fst (compose c s)) = wire s ++ [(ws, frame_of c)]
  /\ sockets (fst (compose c s)) = sockets s
  /\ wsRef (fst (compose c s)) = wsRef s.
Proof.
  rewrite validContent_checks. unfold compose, sendMessage. intros Hvalid Hws Hopen.
  destruct (Nat.eqb (length (trim (text c))) 0); [done|].
  destruct (MAX_MESSAGE_LENGTH <? Z.of_nat (length (text c))); [done|].
  by rewrite Hws, Hopen.
Qed.

Lemma compose_queued (c : composed) (s : hook) :
  validContent (text c) = true -> wsOpen s = false ->
  snd (compose c s) = false
  /\ messageQueue (fst (compose c s)) = messageQueue s ++ [frame_of c]
  /\ wire (fst (compose c s)) = wire s
  /\ sockets (fst (compose c s)) = sockets s
  /\ wsRef (fst (compose c s)) = wsRef s.
Proof.
  rewrite validContent_checks. unfold compose, sendMessage, wsOpen.
  intros Hvalid Hclosed.
  destruct (Nat.eqb (length (trim (text c))) 0); [done|].
  destruct (MAX_MESSAGE_LENGTH <? Z.of_nat (length (text c))); [done|].
  destruct (wsRef s) as [ws|] eqn:Hws; [|done]. by rewrite Hclosed.
Qed.

Lemma wsOpen_ext (s s' : hook) :
  sockets s' = sockets s -> wsRef s' = wsRef s -> wsOpen s' = wsOpen s.
Proof. unfold wsOpen, readyState_is. by intros -> ->. Qed.

(** Composing while the channel is not open only lengthens the queue. *)
Lemma composeAll_queued (cs : list composed) (s : hook) :
  wsOpen s = false ->
  Forall (fun c => validContent (text c) = true) cs ->
  messageQueue (composeAll cs s) = messageQueue s ++ List.map frame_of cs
  /\ wire (composeAll cs s) = wire s
  /\ sockets (composeAll cs s) = sockets s
  /\ wsRef (composeAll cs s) = wsRef s.
Proof.
  intros Hclosed Hvalid. revert s Hclosed.
  induction Hvalid as [|c cs Hc _ IH]; intros s Hclosed; simpl.
  - by rewrite app_nil_r.
  - destruct (compose_queued c s Hc Hclosed) as (_ & Hq & Hw & Hs & Hr).
    destruct (IH (fst (compose c s))) as (Hq' & Hw' & Hs' & Hr').
    { by rewrite (wsOpen_ext s _ Hs Hr). }
    unfold composeAll in *. simpl.
    rewrite Hq', Hw', Hs', Hr', Hq, <- app_assoc. done.
Qed.

(** The loop of [onopen] on an open socket sends the whole queue in order. *)
Lemma drainQueue_open (ws : nat) (queue : list frame) (s : hook) :
  readyState_is ws OPEN s = true ->
  wire (drainQueue ws queue s) = wire s ++ List.map (pair ws) queue
  /\ messageQueue (drainQueue ws queue s)
     = match queue with [] => messageQueue s | _ => [] end.
Proof.
  revert s. induction queue as [|m rest IH]; intros s Hopen; simpl.
  - by rewrite app_nil_r.
  - replace (readyState_is ws OPEN (set_messageQueue rest s)) with true by done.
    destruct (IH (send ws m (set_messageQueue rest s))) as (Hw & Hq); [done|].
    rewrite Hw, Hq. simpl. rewrite <- app_assoc. split; [done|].
    by destruct rest.
Qed.

Lemma drainQueue_state (ws : nat) (queue : list frame) (s : hook) :
  connectionState (drainQueue ws queue s) = connectionState s.
Proof.
  revert s. induction queue as [|m rest IH]; intros s; simpl; [done|].
  rewrite IH. by destruct (readyState_is _ _ _).
Qed.

(** The wire only grows. *)
Lemma compose_wire_prefix (c : composed) (s : hook) :
  wire s `prefix_of` wire (fst (compose c s)).
Proof.
  unfold compose, sendMessage.
  repeat case_match; simpl; try reflexivity. by apply prefix_app_r.
Qed.

Lemma composeAll_wire_prefix (cs : list composed) (s : hook) :
  wire s `prefix_of` wire (composeAll cs s).
Proof.
  revert s. induction cs as [|c cs IH]; intros s; simpl; [reflexivity|].
  etransitivity; [apply (compose_wire_prefix c)|apply IH].
Qed.

Section Queue.
Context `{Platform}.
Variable url : option jsstring.

Lemma onopen_flushes (ws : nat) (s : hook) :
  readyState_is ws OPEN s = true ->
  wire (onopen ws s) = wire s ++ List.map (pair ws) (messageQueue s)
  /\ messageQueue (onopen ws s) = [].
Proof.
  intros Hopen. unfold onopen, startHeartbeat. cbv zeta.
  set (s1 := set_reconnectAttempts 0 (setError None (setConnectionState connected s))).
  set (s2 := match heartbeatIntervalRef s1 with
             | Some t => clearInterval t s1
             | None => s1
             end).
  assert (Hs2 : sockets s2 = sockets s /\ wire s2 = wire s
                /\ messageQueue s2 = messageQueue s).
  { unfold s2. by destruct (heartbeatIntervalRef s1). }
  destruct Hs2 as (Hso & Hwi & Hqu). simpl.
  rewrite Hqu.
  match goal with
  | |- context [drainQueue ws (messageQueue s) ?s3] =>
      destruct (drainQueue_open ws (messageQueue s) s3) as (Hw & Hq)
  end.
  { unfold readyState_is in *. simpl. by rewrite Hso. }
  rewrite Hw, Hq. simpl. rewrite Hwi, Hqu. split; [done|].
  by destruct (messageQueue s).
Qed.

(** The open event of a socket that is connecting: the state is
    [connected], the whole queue goes to that socket in its order, and the
    queue is left empty. *)
Lemma open_event_flushes (ws : nat) (s : hook) :
  enabled (EvOpen ws) s = true ->
  connectionState (handle url (EvOpen ws) s) = connected
  /\ wire (handle url (EvOpen ws) s) = wire s ++ List.map (pair ws) (messageQueue s)
  /\ messageQueue (handle url (EvOpen ws) s) = [].
Proof.
  intros Hen. simpl in Hen. unfold handle.
  set (s' := set_sockets (<[ws := OPEN]> (sockets s)) s).
  assert (Hopen : readyState_is ws OPEN s' = true).
  { unfold s'. rewrite readyState_is_insert, decide_True by done.
    unfold readyState_is in Hen. apply bool_decide_eq_true in Hen.
    rewrite Hen.
    apply andb_true_intro; split; apply bool_decide_eq_true_2;
      [reflexivity|eexists; reflexivity]. }
  destruct (onopen_flushes ws s' Hopen) as (Hwire & Hqueue).
  split; [|done].
  unfold onopen, startHeartbeat. cbv zeta. rewrite drainQueue_state. simpl.
  by destruct (heartbeatIntervalRef s).
Qed.

(** C10: [sendMessage] returns true exactly when the content passes the
    validation and the channel is open, the message then being sent at once;
    it returns false when the content is rejected, nothing being queued or
    sent, and also when the valid message is appended to the queue: the
    returned boolean is the same in the two cases. *)
Theorem C10_sendMessage_result (c : composed) (s : hook) :
  snd (compose c s) = validContent (text c) && wsOpen s
  /\ (validContent (text c) = false ->
      snd (compose c s) = false
      /\ messageQueue (fst (compose c s)) = messageQueue s
      /\ wire (fst (compose c s)) = wire s)
  /\ (validContent (text c) = true -> wsOpen s = true ->
      exists ws, wsRef s = Some ws
                 /\ snd (compose c s) = true
                 /\ wire (fst (compose c s)) = wire s ++ [(ws, frame_of c)]
                 /\ messageQueue (fst (compose c s)) = messageQueue s)
  /\ (validContent (text c) = true -> wsOpen s = false ->
      snd (compose c s) = false
      /\ messageQueue (fst (compose c s)) = messageQueue s ++ [frame_of c]
      /\ wire (fst (compose c s)) = wire s).
Proof.
  assert (Hrej := compose_rejected c s).
  assert (Hque := compose_queued c s).
  assert (Hsent : validContent (text c) = true -> wsOpen s = true ->
                  exists ws, wsRef s = Some ws
                    /\ snd (compose c s) = true
                    /\ wire (fst (compose c s)) = wire s ++ [(ws, frame_of c)]
                    /\ messageQueue (fst (compose c s)) = messageQueue s).
  { intros Hvalid Hopen. unfold wsOpen in Hopen.
    destruct (wsRef s) as [ws|] eqn:Hws; [|done]. exists ws.
    destruct (compose_sent c s ws Hvalid Hws Hopen) as (? & ? & ? & _). done. }
  split; [|split; [|split]].
  - destruct (validContent (text c)) eqn:Hvalid; simpl.
    + destruct (wsOpen s) eqn:Hopen.
      * destruct (Hsent eq_refl eq_refl) as (? & _ & ? & _). done.
      * by destruct (Hque eq_refl eq_refl) as (? & _).
    + by destruct (Hrej eq_refl) as (? & _).
  - intros Hvalid. destruct (Hrej Hvalid) as (? & ? & ? & _). done.
  - done.
  - intros Hvalid Hclosed. destruct (Hque Hvalid Hclosed) as (? & ? & ? & _). done.
Qed.

End Queue.

(** Two messages composed before the channel opens and one after: the wire
    carries them in the order of composition. *)
Example queue_then_live :
  let s := composeAll [hello; again] (connect url42 initial) in
  let s' := fst (compose hello (handle url42 (EvOpen 0) s)) in
  List.map snd (wire s') = [frame_of hello; frame_of again; frame_of hello]
  /\ messageQueue s' = [].
Proof. split; vm_compute; reflexivity. Qed.

(** A blank text and a text composed while the channel is connecting both
    give false; only the second is queued. *)
Example rejected_and_queued_look_alike :
  let s := connect url42 initial in
  snd (compose blank s) = false
  /\ snd (compose hello s) = false
  /\ messageQueue (fst (compose blank s)) = []
  /\ messageQueue (fst (compose hello s)) = [frame_of hello].
Proof. repeat split; vm_compute; reflexivity. Qed.

(** * Further properties *)

(** ** The sanitizer, again *)

Lemma trimStart_fixed (s : jsstring) :
  (forall c, head s = Some c -> isWhiteSpace c = false) -> trimStart s = s.
Proof.
  destruct s as [|c s]; simpl; [done|]. intros Hc. by rewrite (Hc c eq_refl).
Qed.

Lemma trimStart_head (s : jsstring) (c : N) :
  head (trimStart s) = Some c -> isWhiteSpace c = false.
Proof.
  induction s as [|x s IH]; simpl; [done|].
  destruct (isWhiteSpace x) eqn:Hx; [done|]. simpl. by intros [= <-].
Qed.

Lemma trimStart_idempotent (s : jsstring) : trimStart (trimStart s) = trimStart s.
Proof. apply trimStart_fixed, trimStart_head. Qed.

Lemma trimStart_snoc (s : jsstring) (c : N) :
  isWhiteSpace c = false -> trimStart (s ++ [c]) = trimStart s ++ [c].
Proof.
  intros Hc. induction s as [|x s IH]; simpl; [by rewrite Hc|].
  by destruct (isWhiteSpace x).
Qed.

Lemma trimEnd_cons (c : N) (s : jsstring) :
  isWhiteSpace c = false -> trimEnd (c :: s) = c :: trimEnd s.
Proof.
  intros Hc. unfold trimEnd. simpl.
  by rewrite trimStart_snoc, rev_app_distr by done.
Qed.

Lemma trim_idempotent (s : jsstring) : trim (trim s) = trim s.
Proof.
  unfold trim.
  assert (Hstart : trimStart (trimEnd (trimStart s)) = trimEnd (trimStart s)).
  { destruct (trimStart s) as [|c t] eqn:Ht; [done|].
    assert (Hc : isWhiteSpace c = false) by (apply (trimStart_head s); by rewrite Ht).
    rewrite trimEnd_cons by done. simpl. by rewrite Hc. }
  rewrite Hstart. unfold trimEnd.
  by rewrite rev_involutive, trimStart_idempotent.
Qed.

Lemma trimStart_length (s : jsstring) : (length (trimStart s) <= length s)%nat.
Proof.
  induction s as [|c s IH]; simpl; [done|].
  destruct (isWhiteSpace c); simpl; lia.
Qed.

Lemma trim_length (s : jsstring) : (length (trim s) <= length s)%nat.
Proof.
  unfold trim, trimEnd. rewrite length_rev.
  etransitivity; [apply trimStart_length|]. rewrite length_rev.
  apply trimStart_length.
Qed.

Lemma replace_length (c : N) (rep s : jsstring) :
  (1 <= length rep)%nat ->
  (length (replace c rep s) <= length rep * length s)%nat.
Proof.
  intros Hrep. unfold replace. induction s as [|x s IH]; simpl; [lia|].
  rewrite length_app. destruct (x =? c)%N; simpl; lia.
Qed.

(** X1: sanitizing a sanitized text changes nothing (a message the hook sent
    and gets back is stored as it was sent), and a sanitized text is at most
    six times as long as the text it comes from. *)
Theorem sanitizeMessage_idempotent (content : jsstring) :
  sanitizeMessage (sanitizeMessage content) = sanitizeMessage content
  /\ (length (sanitizeMessage content) <= 6 * length content)%nat.
Proof.
  split.
  - rewrite (sanitizeMessage_unfold (sanitizeMessage content)).
    rewrite replace_absent by apply sanitizeMessage_no_apostrophe.
    rewrite sanitizeMessage_unfold. apply trim_idempotent.
  - rewrite sanitizeMessage_unfold.
    etransitivity; [apply trim_length|].
    apply (replace_length APOS (lit "&#x27;")). simpl. lia.
Qed.

(** ** The inbound store *)

Section Store.
Context `{Platform}.
Variable url : option jsstring.

Lemma sanitizedMessage_ok (now : Z) (data : Message) :
  validateMessage data = true -> stored_ok (sanitizedMessage now data).
Proof.
  unfold validateMessage, stored_ok. intros Hvalid.
  repeat (apply andb_prop in Hvalid as [Hvalid ?]).
  simpl. repeat split; try done; [|by eexists].
  exists (sanitizeMessage (content_text data)). split; [done|]. split.
  - apply sanitizeMessage_no_apostrophe.
  - rewrite sanitizeMessage_unfold. apply trim_idempotent.
Qed.

(** The handler of inbound frames touches the store alone. *)
Lemma onmessage_frame (data : decoded) (now : Z) (s : hook) :
  let s' := onmessage data now s in
  connectionState s' = connectionState s /\ errorText s' = errorText s
  /\ wsRef s' = wsRef s /\ reconnectAttempts s' = reconnectAttempts s
  /\ reconnectTimeoutRef s' = reconnectTimeoutRef s
  /\ heartbeatIntervalRef s' = heartbeatIntervalRef s
  /\ messageQueue s' = messageQueue s /\ sockets s' = sockets s
  /\ wire s' = wire s /\ timeouts s' = timeouts s
  /\ intervals s' = intervals s /\ next_timer s' = next_timer s.
Proof.
  unfold onmessage. destruct data as [| | |o]; try by repeat split.
  destruct (strict_eq _ _); [by repeat split|].
  destruct (validateMessage o); by repeat split.
Qed.

(** X2: an inbound frame changes nothing but the store, whatever it holds;
    a text that is not JSON, a scalar, an array, a frame of type pong (even
    one shaped like a message) and a frame that fails the validation leave
    the whole state as it was. *)
Theorem onmessage_only_store (data : decoded) (now : Z) (s : hook) :
  (let s' := onmessage data now s in
   connectionState s' = connectionState s /\ errorText s' = errorText s
   /\ sockets s' = sockets s /\ wire s' = wire s
   /\ messageQueue s' = messageQueue s /\ timeouts s' = timeouts s
   /\ reconnectAttempts s' = reconnectAttempts s)
  /\ onmessage SyntaxError now s = s
  /\ onmessage Array now s = s
  /\ (forall v, onmessage (Scalar v) now s = s)
  /\ (forall o, type o = VStr (lit "pong") -> onmessage (Object o) now s = s)
  /\ (forall o, validateMessage o = false -> onmessage (Object o) now s = s).
Proof.
  destruct (onmessage_frame data now s)
    as (? & ? & ? & ? & ? & ? & ? & ? & ? & ? & ? & ?).
  repeat split; try done.
  - intros o Ho. unfold onmessage, strict_eq.
    by rewrite bool_decide_eq_true_2.
  - intros o Ho. by apply onmessage_rejected.
Qed.

(** X3: an accepted frame is appended to the store; a store that is full
    loses its oldest message for it, a store below the capacity loses
    none. *)
Theorem onmessage_evicts_oldest (data : Message) (now : Z) (s : hook) :
  strict_eq (type data) (VStr (lit "pong")) = false ->
  validateMessage data = true ->
  ((length (messages s) < MAX_MESSAGES_BUFFER)%nat ->
   messages (onmessage (Object data) now s)
   = messages s ++ [sanitizedMessage now data])
  /\ (length (messages s) = MAX_MESSAGES_BUFFER ->
      messages (onmessage (Object data) now s)
      = tail (messages s) ++ [sanitizedMessage now data]).
Proof.
  intros Hpong Hvalid. unfold onmessage. rewrite Hpong, Hvalid. simpl.
  unfold slice_last. rewrite length_app. simpl. split; intros Hlen.
  - replace (length (messages s) + 1 - MAX_MESSAGES_BUFFER)%nat with 0%nat by lia.
    done.
  - replace (length (messages s) + 1 - MAX_MESSAGES_BUFFER)%nat with 1%nat by lia.
    destruct (messages s); [done|]. done.
Qed.

End Store.

(** ** Closing, retrying, opening *)

(** X4: the delay before a reconnect attempt never shrinks as the attempts
    go on, lies between one and thirty seconds, and is thirty seconds from
    the fifth attempt on (the last interval repeats). *)
Theorem reconnectDelay_backoff (a b : nat) :
  ((a <= b)%nat -> reconnectDelay a <= reconnectDelay b)
  /\ 1000 <= reconnectDelay a <= 30000
  /\ ((4 <= a)%nat -> reconnectDelay a = 30000)
  /\ reconnectDelay 0 = 1000.
Proof.
  unfold reconnectDelay, RECONNECT_INTERVALS.
  repeat split.
  - intros Hab.
    do 5 (destruct a as [|a]; [do 5 (destruct b as [|b]; [simpl; lia|]); simpl; lia|]).
    do 5 (destruct b as [|b]; [lia|]). simpl. lia.
  - do 5 (destruct a as [|a]; [simpl; lia|]). simpl. lia.
  - do 5 (destruct a as [|a]; [simpl; lia|]). simpl. lia.
  - intros Ha. do 4 (destruct a as [|a]; [lia|]). by destruct a.
Qed.

Section Closing.
Context `{Platform}.
Variable url : option jsstring.

Lemma onclose_retry (code : Z) (s : hook) :
  code <> 4001 -> code <> 4003 -> code <> 1000 ->
  (reconnectAttempts s < MAX_RECONNECT_ATTEMPTS)%nat ->
  let s' := onclose code s in
  connectionState s' = reconnecting
  /\ timeouts s' = timeouts s ++ [(next_timer s, reconnectDelay (reconnectAttempts s))]
  /\ reconnectTimeoutRef s' = Some (next_timer s)
  /\ next_timer s' = S (next_timer s)
  /\ reconnectAttempts s' = reconnectAttempts s
  /\ heartbeatIntervalRef s' = None
  /\ errorText s' = errorText s
  /\ sockets s' = sockets s /\ wsRef s' = wsRef s
  /\ wire s' = wire s /\ messageQueue s' = messageQueue s
  /\ messages s' = messages s
  /\ intervals s'
     = match heartbeatIntervalRef s with
       | Some t => List.filter (fun i => negb (Nat.eqb i t)) (intervals s)
       | None => intervals s
       end.
Proof.
  intros H1 H3 H0 Hlt. destruct s as [cs ms et wr ra rt hb mq so wi ts ivs nt].
  unfold onclose, stopHeartbeat. simpl in *.
  rewrite (proj2 (Z.eqb_neq code 4001) H1), (proj2 (Z.eqb_neq code 4003) H3),
    (proj2 (Z.eqb_neq code 1000) H0).
  destruct hb; simpl; rewrite (proj2 (Nat.ltb_lt ra MAX_RECONNECT_ATTEMPTS) Hlt);
    simpl; by repeat split.
Qed.

(** X5: a close with a code other than 1000, 4001 and 4003 while the retry
    counter is below the ceiling marks the socket closed, stops the
    heartbeat, sets the state [reconnecting] and schedules exactly one
    timer, with the delay of the current attempt; the counter itself moves
    only when the timer fires, and no diagnostic is set. *)
Theorem close_schedules_one_retry (ws : nat) (code : Z) (s : hook) :
  code <> 4001 -> code <> 4003 -> code <> 1000 ->
  (reconnectAttempts s < MAX_RECONNECT_ATTEMPTS)%nat ->
  let s' := handle url (EvClose ws code) s in
  connectionState s' = reconnecting
  /\ timeouts s' = timeouts s ++ [(next_timer s, reconnectDelay (reconnectAttempts s))]
  /\ reconnectTimeoutRef s' = Some (next_timer s)
  /\ reconnectAttempts s' = reconnectAttempts s
  /\ heartbeatIntervalRef s' = None
  /\ errorText s' = errorText s
  /\ sockets s' = <[ws := CLOSED]> (sockets s).
Proof.
  intros H1 H3 H0 Hlt. cbv zeta. unfold handle.
  destruct (onclose_retry code (set_sockets (<[ws := CLOSED]> (sockets s)) s))
    as (? & ? & ? & ? & ? & ? & ? & ? & _); try done.
Qed.

(** X6: a close with code 1000 below the ceiling schedules nothing and sets
    no diagnostic: the state is [disconnected] and the error text, the
    counter and the pending timers are what they were. *)
Theorem clean_close_is_silent (ws : nat) (s : hook) :
  (reconnectAttempts s < MAX_RECONNECT_ATTEMPTS)%nat ->
  let s' := handle url (EvClose ws 1000) s in
  connectionState s' = disconnected
  /\ errorText s' = errorText s
  /\ timeouts s' = timeouts s
  /\ reconnectAttempts s' = reconnectAttempts s
  /\ heartbeatIntervalRef s' = None
  /\ messageQueue s' = messageQueue s.
Proof.
  intros Hlt. destruct s as [cs ms et wr ra rt hb mq so wi ts ivs nt].
  unfold MAX_RECONNECT_ATTEMPTS in Hlt. simpl in Hlt.
  do 5 (destruct ra as [|ra];
        [unfold handle, onclose, stopHeartbeat; destruct hb; simpl; by repeat split|]).
  lia.
Qed.

Lemma connect_cases (s : hook) :
  let s' := connect url s in
  timeouts s' = timeouts s /\ intervals s' = intervals s
  /\ next_timer s' = next_timer s
  /\ heartbeatIntervalRef s' = heartbeatIntervalRef s
  /\ reconnectTimeoutRef s' = reconnectTimeoutRef s
  /\ reconnectAttempts s' = reconnectAttempts s
  /\ messages s' = messages s /\ wire s' = wire s
  /\ messageQueue s' = messageQueue s
  /\ ((sockets s' = sockets s /\ wsRef s' = wsRef s)
      \/ (sockets s' = sockets s ++ [CONNECTING]
          /\ wsRef s' = Some (length (sockets s))
          /\ wsOpen s = false
          /\ connectionState s' = connecting /\ errorText s' = None)).
Proof.
  unfold connect. destruct url as [[|c u]|]; simpl; [by repeat split; left| |by repeat split; left].
  destruct (wsOpen s) eqn:Hopen; [by repeat split; left|].
  destruct (URL_parses (c :: u) && WebSocket_accepts (c :: u)); simpl.
  - repeat split; try done. by right.
  - repeat split; try done. by left.
Qed.

(** X7: when the reconnect timer fires it is no longer pending, the retry
    counter goes up by one, and [connect] runs: with an address the platform
    accepts and the current socket not open, a new socket is constructed,
    connecting, and becomes the current one. *)
Theorem timer_fires_then_connects (t : nat) (u : jsstring) (s : hook) :
  url = Some u -> u <> [] ->
  URL_parses u && WebSocket_accepts u = true ->
  wsOpen s = false ->
  let s' := handle url (EvTimeout t) s in
  reconnectAttempts s' = S (reconnectAttempts s)
  /\ enabled (EvTimeout t) s' = false
  /\ sockets s' = sockets s ++ [CONNECTING]
  /\ wsRef s' = Some (length (sockets s))
  /\ connectionState s' = connecting
  /\ errorText s' = None.
Proof.
  intros Hurl Hu Hok Hclosed. cbv zeta.
  destruct s as [cs ms et wr ra rt hb mq so wi ts ivs nt].
  unfold handle, reconnectCallback, connect. rewrite Hurl.
  destruct u as [|c u]; [done|].
  unfold wsOpen, readyState_is in *. simpl in *. rewrite Hclosed, Hok. simpl.
  repeat split; try done.
  induction ts as [|p l IH]; simpl; [done|].
  destruct (Nat.eqb (fst p) t) eqn:Hp; simpl; [done|]. by rewrite Hp.
Qed.

(** X8: a [connect] whose address the platform rejects is not retried: the
    state becomes [error] with its diagnostic, no socket is constructed, the
    current socket stays the current one and no timer is scheduled. *)
Theorem connect_rejected_address (u : jsstring) (s : hook) :
  url = Some u -> u <> [] ->
  URL_parses u && WebSocket_accepts u = false ->
  wsOpen s = false ->
  let s' := connect url s in
  connectionState s' = error
  /\ errorText s' = Some "Failed to establish connection"%string
  /\ sockets s' = sockets s
  /\ wsRef s' = wsRef s
  /\ timeouts s' = timeouts s
  /\ reconnectAttempts s' = reconnectAttempts s.
Proof.
  intros Hurl Hu Hbad Hclosed. cbv zeta. unfold connect. rewrite Hurl.
  destruct u as [|c u]; [done|]. by rewrite Hclosed, Hbad.
Qed.

Lemma onopen_effects (ws : nat) (s : hook) :
  let s' := handle url (EvOpen ws) s in
  connectionState s' = connected
  /\ errorText s' = None
  /\ reconnectAttempts s' = 0%nat
  /\ heartbeatIntervalRef s' = Some (next_timer s)
  /\ timeouts s' = timeouts s
  /\ (one_heartbeat s -> intervals s' = [next_timer s]).
Proof.
  cbv zeta. unfold handle, onopen.
  set (s0 := set_sockets (<[ws := OPEN]> (sockets s)) s).
  set (s1 := startHeartbeat _).
  assert (Hq : forall q s2,
            connectionState (drainQueue ws q s2) = connectionState s2
            /\ errorText (drainQueue ws q s2) = errorText s2
            /\ reconnectAttempts (drainQueue ws q s2) = reconnectAttempts s2
            /\ heartbeatIntervalRef (drainQueue ws q s2) = heartbeatIntervalRef s2
            /\ timeouts (drainQueue ws q s2) = timeouts s2
            /\ intervals (drainQueue ws q s2) = intervals s2).
  { induction q as [|m q IH]; intros s2; simpl; [done|].
    destruct (IH (if readyState_is ws OPEN (set_messageQueue q s2)
                  then send ws m (set_messageQueue q s2)
                  else set_messageQueue q s2)) as (-> & -> & -> & -> & -> & ->).
    by destruct (readyState_is _ _ _). }
  destruct (Hq (messageQueue s1) s1) as (-> & -> & -> & -> & -> & ->).
  unfold s1, s0, startHeartbeat, one_heartbeat.
  destruct s as [cs ms et wr ra rt hb mq so wi ts ivs nt]. simpl.
  destruct hb as [t|]; simpl; repeat split; try done; intros ->; simpl.
  - by rewrite Nat.eqb_refl.
  - done.
Qed.

(** X9: when a channel opens the state is [connected], the diagnostic is
    cleared, the retry counter starts again from zero and the heartbeat is
    started afresh: where the heartbeat was the only interval, the new one
    is the only interval. *)
Theorem open_resets (ws : nat) (s : hook) :
  let s' := handle url (EvOpen ws) s in
  connectionState s' = connected
  /\ errorText s' = None
  /\ reconnectAttempts s' = 0%nat
  /\ heartbeatIntervalRef s' = Some (next_timer s)
  /\ timeouts s' = timeouts s
  /\ (one_heartbeat s -> intervals s' = [next_timer s]).
Proof. exact (onopen_effects ws s). Qed.

End Closing.

(** ** What every action keeps *)

Lemma drainQueue_frame (ws : nat) (queue : list frame) (s : hook) :
  let s' := drainQueue ws queue s in
  connectionState s' = connectionState s /\ messages s' = messages s
  /\ errorText s' = errorText s /\ wsRef s' = wsRef s
  /\ reconnectAttempts s' = reconnectAttempts s
  /\ reconnectTimeoutRef s' = reconnectTimeoutRef s
  /\ heartbeatIntervalRef s' = heartbeatIntervalRef s
  /\ sockets s' = sockets s /\ timeouts s' = timeouts s
  /\ intervals s' = intervals s /\ next_timer s' = next_timer s.
Proof.
  revert s. induction queue as [|m q IH]; intros s; simpl; [by repeat split|].
  destruct (IH (if readyState_is ws OPEN (set_messageQueue q s)
                then send ws m (set_messageQueue q s)
                else set_messageQueue q s))
    as (-> & -> & -> & -> & -> & -> & -> & -> & -> & -> & ->).
  by destruct (readyState_is _ _ _).
Qed.

Lemma compose_frame (c : composed) (s : hook) :
  let s' := fst (compose c s) in
  connectionState s' = connectionState s /\ messages s' = messages s
  /\ wsRef s' = wsRef s /\ reconnectAttempts s' = reconnectAttempts s
  /\ reconnectTimeoutRef s' = reconnectTimeoutRef s
  /\ heartbeatIntervalRef s' = heartbeatIntervalRef s
  /\ sockets s' = sockets s /\ timeouts s' = timeouts s
  /\ intervals s' = intervals s /\ next_timer s' = next_timer s.
Proof.
  unfold compose, sendMessage. repeat case_match; simpl; by repeat split.
Qed.

Lemma onclose_heartbeat (code : Z) (s : hook) :
  heartbeatIntervalRef (onclose code s) = None
  /\ messages (onclose code s) = messages s
  /\ intervals (onclose code s)
     = match heartbeatIntervalRef s with
       | Some t => List.filter (fun i => negb (Nat.eqb i t)) (intervals s)
       | None => intervals s
       end.
Proof.
  destruct s as [cs ms et wr ra rt hb mq so wi ts ivs nt].
  unfold onclose, stopHeartbeat. simpl.
  destruct hb; simpl; repeat case_match; simpl; by repeat split.
Qed.

Lemma disconnect_frame (s : hook) :
  messages (disconnect s) = messages s
  /\ messageQueue (disconnect s) = messageQueue s
  /\ wire (disconnect s) = wire s
  /\ errorText (disconnect s) = errorText s
  /\ intervals (disconnect s)
     = match heartbeatIntervalRef s with
       | Some t => List.filter (fun i => negb (Nat.eqb i t)) (intervals s)
       | None => intervals s
       end
  /\ timeouts (disconnect s)
     = match reconnectTimeoutRef s with
       | Some t => List.filter (fun p => negb (Nat.eqb (fst p) t)) (timeouts s)
       | None => timeouts s
       end
  /\ sockets (disconnect s)
     = match wsRef s with
       | Some n => if live n s then <[n := CLOSING]> (sockets s) else sockets s
       | None => sockets s
       end.
Proof.
  destruct s as [cs ms et wr ra rt hb mq so wi ts ivs nt].
  unfold disconnect, stopHeartbeat, live, readyState_is. simpl.
  destruct rt, hb; simpl; destruct wr as [cur|]; simpl; unfold close; simpl;
    try destruct (so !! cur) as [[]|] eqn:Hcur; simpl; by repeat split.
Qed.

Section Sessions.
Context `{Platform}.
Variable url : option jsstring.

(** Only an inbound frame and [clearMessages] change the store. *)
Lemma perform_messages (a : action) (s : hook) :
  messages (perform url a s) = messages s
  \/ a = CallClear
  \/ exists ws data now, a = Auto (EvMessage ws data now).
Proof.
  destruct a as [[ws|ws code|ws|ws data now|t|t]| | |c|]; cbn [perform handle].
  - left. unfold onopen.
    match goal with
    | |- messages (drainQueue ?w ?q ?s0) = _ =>
        destruct (drainQueue_frame w q s0) as (_ & -> & _)
    end.
    unfold startHeartbeat. simpl.
    by destruct (heartbeatIntervalRef s).
  - left. by destruct (onclose_heartbeat code (set_sockets (<[ws:=CLOSED]> (sockets s)) s))
      as (_ & -> & _).
  - by left.
  - right. right. by exists ws, data, now.
  - left. unfold reconnectCallback.
    match goal with
    | |- messages (connect url ?s0) = _ =>
        destruct (connect_cases url s0) as (_ & _ & _ & _ & _ & _ & -> & _)
    end. done.
  - left. unfold heartbeat. by repeat case_match.
  - left. by destruct (connect_cases url s) as (_ & _ & _ & _ & _ & _ & -> & _).
  - left. by destruct (disconnect_frame s) as (-> & _).
  - left. by destruct (compose_frame c s) as (_ & -> & _).
  - right. by left.
Qed.

(** X10: whatever the browser and the callers do, the inbound store never
    grows beyond its capacity. *)
Theorem store_within_capacity (acts : list action) (s s' : hook) :
  (length (messages s) <= MAX_MESSAGES_BUFFER)%nat ->
  session url s acts s' ->
  (length (messages s') <= MAX_MESSAGES_BUFFER)%nat.
Proof.
  intros Hs Hrun. induction Hrun as [|s a acts s' _ _ IH]; [done|].
  apply IH. destruct (perform_messages a s) as [-> | [-> | (ws & data & now & ->)]].
  - done.
  - simpl. lia.
  - simpl. by apply onmessage_bounded.
Qed.

(** X11: whatever the browser and the callers do, every message of the
    store has passed the validation and the sanitizer: its id, sender and
    chat are strings, its content is a string without apostrophe and without
    white space at its ends, its timestamp is a [Date]. *)
Theorem store_holds_sanitized (acts : list action) (s s' : hook) :
  Forall stored_ok (messages s) ->
  session url s acts s' ->
  Forall stored_ok (messages s').
Proof.
  intros Hs Hrun. induction Hrun as [|s a acts s' _ _ IH]; [done|].
  apply IH. destruct (perform_messages a s) as [-> | [-> | (ws & data & now & ->)]].
  - done.
  - simpl. constructor.
  - simpl. unfold onmessage. destruct data as [| | |o]; try done.
    destruct (strict_eq _ _); [done|].
    destruct (validateMessage o) eqn:Hvalid; simpl; [|done].
    unfold slice_last. apply Forall_forall. intros m Hm.
    apply list_elem_of_In in Hm.
    eapply sublist_In in Hm; [|apply sublist_drop].
    apply in_app_or in Hm. destruct Hm as [Hm|[<-|[]]].
    + rewrite Forall_forall in Hs. by apply Hs, list_elem_of_In.
    + by apply sanitizedMessage_ok.
Qed.

(** X12: whatever the browser and the callers do, there is never more than
    one heartbeat: the interval the hook holds is the only interval
    pending. *)
Theorem heartbeat_is_single (acts : list action) (s s' : hook) :
  one_heartbeat s -> session url s acts s' -> one_heartbeat s'.
Proof.
  intros Hs Hrun. induction Hrun as [|s a acts s' _ _ IH]; [done|].
  apply IH. clear IH. unfold one_heartbeat in *.
  destruct a as [[ws|ws code|ws|ws data now|t|t]| | |c|]; cbn [perform handle].
  - destruct (onopen_effects url ws s) as (_ & _ & _ & Href & _ & Hiv).
    simpl in Href, Hiv. by rewrite Href, Hiv.
  - destruct (onclose_heartbeat code (set_sockets (<[ws:=CLOSED]> (sockets s)) s))
      as (-> & _ & ->). simpl. rewrite Hs.
    destruct (heartbeatIntervalRef s); simpl; [|done]. by rewrite Nat.eqb_refl.
  - done.
  - by destruct (onmessage_frame data now s)
      as (_ & _ & _ & _ & _ & -> & _ & _ & _ & _ & -> & _).
  - unfold reconnectCallback.
    match goal with
    | |- intervals (connect url ?s0) = _ =>
        destruct (connect_cases url s0) as (_ & -> & _ & -> & _)
    end. done.
  - unfold heartbeat. destruct (wsRef s) as [n|]; [|done].
    by destruct (readyState_is n OPEN s).
  - by destruct (connect_cases url s) as (_ & -> & _ & -> & _).
  - destruct (disconnect_frame s) as (_ & _ & _ & _ & -> & _).
    destruct (disconnect_refs s) as (_ & _ & -> & _). rewrite Hs.
    destruct (heartbeatIntervalRef s); simpl; [|done]. by rewrite Nat.eqb_refl.
  - by destruct (compose_frame c s) as (_ & _ & _ & _ & _ & -> & _ & _ & -> & _).
  - done.
Qed.

End Sessions.

(** ** Teardown *)

Lemma disconnect_twice (s : hook) :
  disconnect (disconnect s) = disconnect s.
Proof.
  destruct s as [cs ms et wr ra rt hb mq so wi ts ivs nt].
  unfold disconnect, stopHeartbeat. simpl.
  destruct rt, hb; simpl; destruct wr as [cur|]; simpl; unfold close; simpl;
    try destruct (so !! cur) as [[]|]; reflexivity.
Qed.

(** X13: [disconnect] is idempotent: a second call changes nothing. At
    unmount the cleanups of both effects call it, one after the other. *)
Theorem disconnect_idempotent (s : hook) :
  disconnect (disconnect s) = disconnect s.
Proof. exact (disconnect_twice s). Qed.

Lemma live_Some (n : nat) (s : hook) :
  live n s = true -> (n < length (sockets s))%nat.
Proof.
  unfold live, readyState_is. intros Hlive. apply orb_prop in Hlive.
  destruct Hlive as [Hl|Hl]; apply bool_decide_eq_true in Hl;
    by apply lookup_lt_Some in Hl.
Qed.

Section Teardown.
Context `{Platform}.
Variable url : option jsstring.

(** X14: [disconnect] leaves the handlers on the socket it closes. When the
    close event of that socket then comes with a code other than 1000, 4001
    and 4003 (as it does for a socket closed while still connecting), the
    handler schedules a reconnect after one second and sets the state
    [reconnecting], the teardown notwithstanding. *)
Theorem close_after_disconnect_retries (n : nat) (code : Z) (s : hook) :
  wsRef s = Some n -> live n s = true ->
  code <> 4001 -> code <> 4003 -> code <> 1000 ->
  let s1 := disconnect s in
  let s2 := handle url (EvClose n code) s1 in
  enabled (EvClose n code) s1 = true
  /\ connectionState s1 = disconnected
  /\ connectionState s2 = reconnecting
  /\ timeouts s2 = timeouts s1 ++ [(next_timer s1, 1000)]
  /\ enabled (EvTimeout (next_timer s1)) s2 = true.
Proof.
  intros Hws Hlive H1 H3 H0. cbv zeta.
  destruct (disconnect_refs s) as (_ & _ & _ & Hzero & Hstate).
  destruct (disconnect_frame s) as (_ & _ & _ & _ & _ & _ & Hsock).
  rewrite Hws, Hlive in Hsock.
  cbn [handle].
  set (s0 := set_sockets (<[n := CLOSED]> (sockets (disconnect s))) (disconnect s)).
  assert (Hra : reconnectAttempts s0 = 0%nat) by exact Hzero.
  assert (Hts0 : timeouts s0 = timeouts (disconnect s)) by reflexivity.
  assert (Hnt0 : next_timer s0 = next_timer (disconnect s)) by reflexivity.
  destruct (onclose_retry code s0) as (Hst & Hts & _); try done.
  { rewrite Hra. unfold MAX_RECONNECT_ATTEMPTS. lia. }
  rewrite Hra, Hts0, Hnt0 in Hts.
  split; [|split; [done|split; [done|split; [done|]]]].
  - cbn [enabled]. unfold readyState_is. rewrite Hsock.
    rewrite list_lookup_insert_eq by by apply live_Some.
    rewrite (bool_decide_eq_true_2 (Some CLOSING = Some CLOSING)) by done.
    by rewrite orb_true_r.
  - cbn [enabled]. rewrite Hts, existsb_app. cbn [existsb fst].
    by rewrite Nat.eqb_refl, orb_true_r.
Qed.

End Teardown.

(** ** One channel at a time *)

Lemma one_channel_ext (s s' : hook) :
  sockets s' = sockets s -> timeouts s' = timeouts s ->
  reconnectAttempts s' = reconnectAttempts s ->
  one_channel s -> one_channel s'.
Proof.
  unfold one_channel, live, readyState_is. by intros -> -> ->.
Qed.

Lemma live_after_open (i ws : nat) (s : hook) :
  readyState_is ws CONNECTING s = true ->
  live i (set_sockets (<[ws := OPEN]> (sockets s)) s) = live i s.
Proof.
  intros Hws. unfold live. rewrite !readyState_is_insert.
  destruct (decide (i = ws)) as [->|]; [|done]. rewrite Hws.
  unfold readyState_is in Hws. apply bool_decide_eq_true in Hws.
  rewrite (bool_decide_eq_false_2 (CONNECTING = OPEN)) by done.
  rewrite (bool_decide_eq_true_2 (OPEN = OPEN)) by done.
  rewrite bool_decide_eq_true_2; [done|by eexists].
Qed.

Lemma closing_after_insert (i ws : nat) (r : ReadyState) (s : hook) :
  r <> CLOSING -> readyState_is i CLOSING s = false ->
  readyState_is i CLOSING (set_sockets (<[ws := r]> (sockets s)) s) = false.
Proof.
  intros Hr Hi. rewrite readyState_is_insert.
  destruct (decide (i = ws)); [|done].
  rewrite (bool_decide_eq_false_2 (CLOSING = r)); [done|congruence].
Qed.

Lemma live_after_close (i ws : nat) (s : hook) :
  (forall j k, live j s = true -> live k s = true -> j = k) ->
  live ws s = true ->
  live i (set_sockets (<[ws := CLOSED]> (sockets s)) s) = false.
Proof.
  intros Huniq Hws. unfold live. rewrite !readyState_is_insert.
  destruct (decide (i = ws)) as [->|Hne].
  - by rewrite !(bool_decide_eq_false_2 (_ = CLOSED)).
  - fold (live i s). destruct (live i s) eqn:Hi; [|done].
    by specialize (Huniq i ws Hi Hws).
Qed.

Lemma live_after_construct (i : nat) (s : hook) :
  (forall j, live j s = false) ->
  live i (set_sockets (sockets s ++ [CONNECTING]) s)
  = bool_decide (i = length (sockets s)).
Proof.
  intros Hnone. specialize (Hnone i). unfold live, readyState_is in *. simpl.
  destruct (decide (i < length (sockets s))%nat) as [Hlt|Hge].
  - rewrite lookup_app_l by done. rewrite Hnone.
    symmetry. apply bool_decide_eq_false_2. lia.
  - rewrite lookup_app_r by lia.
    destruct (decide (i = length (sockets s))) as [->|Hne].
    + rewrite Nat.sub_diag.
      rewrite (bool_decide_eq_true_2 (length (sockets s) = length (sockets s))) by done.
      reflexivity.
    + rewrite (bool_decide_eq_false_2 (i = _)) by done.
      destruct (i - length (sockets s))%nat as [|k] eqn:Hk; [lia|]. reflexivity.
Qed.

Section OneChannel.
Context `{Platform}.
Variable url : option jsstring.

Lemma onopen_sockets (ws : nat) (s : hook) : sockets (onopen ws s) = sockets s.
Proof.
  unfold onopen.
  match goal with
  | |- sockets (drainQueue ?w ?q ?s0) = _ =>
      destruct (drainQueue_frame w q s0) as (_ & _ & _ & _ & _ & _ & _ & -> & _)
  end.
  unfold startHeartbeat. simpl. by destruct (heartbeatIntervalRef s).
Qed.

Lemma one_channel_step (e : event) (s : hook) :
  one_channel s -> enabled e s = true -> one_channel (handle url e s).
Proof.
  intros (Huniq & Hclosing & Hlen & Hquiet & Hmax & Hbelow) Hen.
  destruct e as [ws|ws code|ws|ws d now|t|t]; cbn [handle enabled] in *.
  - (* open *)
    assert (Hlive : live ws s = true) by (unfold live; by rewrite Hen).
    assert (Hnone : timeouts s = []).
    { destruct (timeouts s) eqn:Ht; [done|].
      rewrite Hquiet in Hlive; done. }
    destruct (onopen_effects url ws s) as (_ & _ & Hzero & _ & Hts & _).
    cbv zeta in Hzero, Hts. cbn [handle] in Hzero, Hts.
    unfold one_channel. rewrite Hzero, Hts, Hnone.
    assert (Hsame : forall i, live i (onopen ws (set_sockets (<[ws:=OPEN]> (sockets s)) s))
                              = live i s).
    { intros i. rewrite <- (live_after_open i ws s Hen).
      unfold live, readyState_is. by rewrite onopen_sockets. }
    repeat split; try (simpl; unfold MAX_RECONNECT_ATTEMPTS; lia); try done.
    + intros i j. rewrite !Hsame. apply Huniq.
    + intros i. unfold readyState_is. rewrite onopen_sockets.
      by apply (closing_after_insert i ws OPEN s).
  - (* close *)
    assert (Hlive : live ws s = true).
    { unfold live. rewrite (Hclosing ws), orb_false_r in Hen. done. }
    assert (Hnone : timeouts s = []).
    { destruct (timeouts s) eqn:Ht; [done|].
      rewrite Hquiet in Hlive; done. }
    set (s0 := set_sockets (<[ws := CLOSED]> (sockets s)) s).
    assert (Hdead : forall i, live i s0 = false)
      by (intros i; by apply live_after_close).
    assert (Hnoclosing : forall i, readyState_is i CLOSING s0 = false)
      by (intros i; by apply closing_after_insert).
    destruct (decide (code <> 4001 /\ code <> 4003 /\ code <> 1000
                      /\ (reconnectAttempts s < MAX_RECONNECT_ATTEMPTS)%nat))
      as [(H1 & H3 & H0 & Hlt)|Hno].
    + destruct (onclose_retry code s0)
        as (_ & Hts & _ & _ & Hat & _ & _ & Hso & _); try done.
      unfold one_channel, live, readyState_is. rewrite Hso, Hts, Hat.
      fold s0. simpl timeouts. rewrite Hnone. simpl.
      repeat split; try done; try lia.
      all: intros i j Hi; specialize (Hdead i);
        unfold live, readyState_is, s0 in Hdead; simpl in Hdead;
        by rewrite Hdead in Hi.
    + destruct (onclose_no_retry code s0)
        as (_ & Hts & _ & Hat & _ & Hso & _).
      { destruct (decide (code = 4001)); [tauto|].
        destruct (decide (code = 4003)); [tauto|].
        destruct (decide (code = 1000)); [tauto|].
        right. right. right. simpl. apply Nat.nlt_ge. intros Hlt. apply Hno.
        by repeat split. }
      unfold one_channel, live, readyState_is. rewrite Hso, Hts, Hat.
      simpl timeouts. rewrite Hnone. simpl.
      repeat split; try done; try lia.
      all: intros i j Hi; specialize (Hdead i);
        unfold live, readyState_is, s0 in Hdead; simpl in Hdead;
        by rewrite Hdead in Hi.
  - (* error *)
    by apply (one_channel_ext s).
  - (* message *)
    destruct (onmessage_frame d now s)
      as (_ & _ & _ & ? & _ & _ & _ & ? & _ & ? & _).
    by apply (one_channel_ext s).
  - (* timeout *)
    destruct (timeouts s) as [|[t' d] [|? ?]] eqn:Hts; [done| |simpl in Hlen; lia].
    simpl in Hen. rewrite orb_false_r in Hen. apply Nat.eqb_eq in Hen. subst t'.
    assert (Hdead : forall i, live i s = false) by by apply Hquiet.
    assert (Hlt : (reconnectAttempts s < MAX_RECONNECT_ATTEMPTS)%nat) by by apply Hbelow.
    unfold reconnectCallback.
    set (s1 := set_reconnectAttempts _ _).
    assert (Hs1 : sockets s1 = sockets s /\ timeouts s1 = []
                  /\ reconnectAttempts s1 = S (reconnectAttempts s)).
    { unfold s1. simpl. by rewrite Hts; simpl; rewrite Nat.eqb_refl. }
    destruct Hs1 as (Hso1 & Hts1 & Hat1).
    destruct (connect_cases url s1)
      as (Hts' & _ & _ & _ & _ & Hat' & _ & _ & _ & Hcase).
    cbv zeta in *. unfold one_channel. rewrite Hts', Hat', Hts1, Hat1.
    assert (Hdead1 : forall i, live i s1 = false).
    { intros i. unfold live, readyState_is. rewrite Hso1. apply Hdead. }
    destruct Hcase as [(Hso' & _)|(Hso' & _)].
    + repeat split; try done; try (simpl; lia).
      * intros i j Hi. unfold live, readyState_is in Hi, Hdead1.
        rewrite Hso' in Hi. by rewrite Hdead1 in Hi.
      * intros i. unfold readyState_is. rewrite Hso', Hso1. apply Hclosing.
    + assert (Hnew : forall i, live i (connect url s1)
                               = bool_decide (i = length (sockets s1))).
      { intros i. rewrite <- (live_after_construct i s1 Hdead1).
        unfold live, readyState_is. by rewrite Hso'. }
      repeat split; try done; try (simpl; lia).
      * intros i j. rewrite !Hnew. intros Hi Hj.
        apply bool_decide_eq_true in Hi, Hj. congruence.
      * intros i. unfold readyState_is. rewrite Hso', Hso1.
        specialize (Hclosing i). unfold readyState_is in Hclosing.
        destruct (decide (i < length (sockets s))%nat).
        -- by rewrite lookup_app_l.
        -- rewrite lookup_app_r by lia.
           destruct (i - length (sockets s))%nat as [|[|k]];
             by apply bool_decide_eq_false_2.
  - (* heartbeat *)
    apply (one_channel_ext s); try done; unfold heartbeat;
      destruct (wsRef s) as [n|]; try done; by destruct (readyState_is n OPEN s).
Qed.

(** With no timeout pending, one socket at most, that one connecting or
    open, the counter within the ceiling: as after the first [connect]. *)
Lemma one_channel_connect_initial : one_channel (connect url initial).
Proof.
  destruct (connect_cases url initial)
    as (Hts & _ & _ & _ & _ & Hat & _ & _ & _ & Hcase).
  cbv zeta in *. unfold one_channel. rewrite Hts, Hat. simpl.
  assert (Hdead : forall i, live i initial = false) by (by intros [|i]).
  destruct Hcase as [(Hso & _)|(Hso & _)].
  - repeat split; try done; try (unfold MAX_RECONNECT_ATTEMPTS; lia).
    + intros i j Hi. unfold live, readyState_is in *. rewrite Hso in Hi.
      by rewrite Hdead in Hi.
    + intros i. unfold readyState_is. rewrite Hso. by destruct i.
  - assert (Hnew : forall i, live i (connect url initial)
                             = bool_decide (i = length (sockets initial))).
    { intros i. rewrite <- (live_after_construct i initial Hdead).
      unfold live, readyState_is. by rewrite Hso. }
    repeat split; try done; try (unfold MAX_RECONNECT_ATTEMPTS; lia).
    + intros i j. rewrite !Hnew. intros Hi Hj.
      apply bool_decide_eq_true in Hi, Hj. congruence.
    + intros i. unfold readyState_is. rewrite Hso. by destruct i as [|[|i]].
Qed.

(** X15: left to the browser's events (socket events and timers, no call
    of the hook's functions in between), a hook that starts with one channel
    keeps to one: at any time at most one socket is connecting or open, at
    most one reconnect timer is pending and none while a socket is live, and
    the retry counter never exceeds the ceiling.
    The first [connect] of a fresh hook is such a start. *)
Theorem events_keep_one_channel (es : list event) (s s' : hook) :
  one_channel s -> run url s es s' ->
  (forall i j, live i s' = true -> live j s' = true -> i = j)
  /\ (length (timeouts s') <= 1)%nat
  /\ (timeouts s' <> [] -> forall i, live i s' = false)
  /\ (reconnectAttempts s' <= MAX_RECONNECT_ATTEMPTS)%nat
  /\ one_channel (connect url initial).
Proof.
  intros Hs Hrun.
  assert (Hinv : one_channel s').
  { induction Hrun as [|s e es s' Hen _ IH]; [done|].
    by apply IH, one_channel_step. }
  destruct Hinv as (? & _ & ? & ? & ? & _).
  do 4 (split; [done|]). apply one_channel_connect_initial.
Qed.

End OneChannel.

(** ** The queue across a teardown, and the effect *)

Section Lifecycle.
Context `{Platform}.
Variable url : option jsstring.

Lemma connect_succeeds (u : jsstring) (s : hook) :
  url = Some u -> u <> [] ->
  URL_parses u && WebSocket_accepts u = true ->
  wsOpen s = false ->
  sockets (connect url s) = sockets s ++ [CONNECTING]
  /\ wsRef (connect url s) = Some (length (sockets s))
  /\ connectionState (connect url s) = connecting.
Proof.
  intros Hurl Hu Hok Hclosed. unfold connect. rewrite Hurl.
  destruct u as [|c u]; [done|]. by rewrite Hclosed, Hok.
Qed.

(** X16: the outbound queue survives a teardown. Messages composed while
    the channel is not open are still queued after [disconnect], and when
    [connect] then constructs a channel and it opens, they are sent on it in
    the order of composition. *)
Theorem queue_survives_reconnect (u : jsstring) (cs : list composed) (s : hook) :
  url = Some u -> u <> [] ->
  URL_parses u && WebSocket_accepts u = true ->
  wsOpen s = false ->
  Forall (fun c => validContent (text c) = true) cs ->
  let s1 := disconnect (composeAll cs s) in
  let s2 := connect url s1 in
  let ws := length (sockets s) in
  let s3 := handle url (EvOpen ws) s2 in
  messageQueue s1 = messageQueue s ++ List.map frame_of cs
  /\ wsRef s2 = Some ws
  /\ enabled (EvOpen ws) s2 = true
  /\ wire s3 = wire s ++ List.map (pair ws) (messageQueue s ++ List.map frame_of cs)
  /\ messageQueue s3 = [].
Proof.
  intros Hurl Hu Hok Hclosed Hvalid. cbv zeta.
  destruct (composeAll_queued cs s Hclosed Hvalid) as (Hq & Hw & Hs & Hr).
  set (s0 := composeAll cs s) in *.
  destruct (disconnect_frame s0) as (_ & Hq1 & Hw1 & _ & _ & _ & Hs1).
  destruct (disconnect_refs s0) as (Hr1 & _).
  assert (Hlen : length (sockets (disconnect s0)) = length (sockets s)).
  { rewrite Hs1, <- Hs. destruct (wsRef s0) as [n|]; [|done].
    destruct (live n s0); [apply length_insert|done]. }
  assert (Hclosed1 : wsOpen (disconnect s0) = false)
    by (unfold wsOpen; by rewrite Hr1).
  destruct (connect_cases url (disconnect s0))
    as (_ & _ & _ & _ & _ & _ & _ & Hw2 & Hq2 & Hcase).
  cbv zeta in *.
  destruct (connect_succeeds u (disconnect s0) Hurl Hu Hok Hclosed1)
    as (Hs2 & Hr2 & _).
  rewrite Hlen in Hr2. clear Hcase.
  assert (Hen : readyState_is (length (sockets s)) CONNECTING
                  (connect url (disconnect s0)) = true).
  { unfold readyState_is. rewrite Hs2, lookup_app_r by lia.
    rewrite Hlen, Nat.sub_diag. by apply bool_decide_eq_true_2. }
  split; [by rewrite Hq1|]. split; [done|]. split; [done|].
  unfold handle.
  set (s2' := set_sockets _ (connect url (disconnect s0))).
  assert (Hopen : readyState_is (length (sockets s)) OPEN s2' = true).
  { unfold s2'. rewrite readyState_is_insert, decide_True by done.
    unfold readyState_is in Hen. apply bool_decide_eq_true in Hen. rewrite Hen.
    apply andb_true_intro; split; apply bool_decide_eq_true_2;
      [reflexivity|eexists; reflexivity]. }
  destruct (onopen_flushes (length (sockets s)) s2' Hopen) as (Hwire & Hqueue).
  simpl in Hwire. by rewrite Hw2, Hq2, Hw1, Hq1, Hw, Hq in Hwire.
Qed.

Lemma effect_cases (url' : option jsstring) (s : hook) :
  effect url' s = disconnect s \/ effect url' s = connect url' s.
Proof. unfold effect. destruct url' as [[|c u]|]; auto. Qed.

(** X17: when the address changes, the effect's cleanup and body run: the
    socket that was current is no longer connecting or open, the reconnect
    timer the hook held is cancelled, the counter is back at zero; the store
    and the outbound queue are kept as they were, so that the messages of
    the previous address stay in the store. *)
Theorem switch_tears_down_keeps_store (url' : option jsstring) (n : nat)
    (r : ReadyState) (s : hook) :
  wsRef s = Some n -> sockets s !! n = Some r ->
  live n (switch url' s) = false
  /\ messages (switch url' s) = messages s
  /\ messageQueue (switch url' s) = messageQueue s
  /\ reconnectAttempts (switch url' s) = 0%nat
  /\ (forall t, reconnectTimeoutRef s = Some t ->
                enabled (EvTimeout t) (switch url' s) = false).
Proof.
  intros Hws Hn. unfold switch, cleanup.
  destruct (disconnect_frame s) as (Hm & Hq & _ & _ & _ & _ & Hso).
  destruct (disconnect_refs s) as (_ & _ & _ & Hzero & _).
  pose proof (disconnect_closes s n Hws) as Hdead.
  assert (Hlt : (n < length (sockets (disconnect s)))%nat).
  { rewrite Hso, Hws. apply lookup_lt_Some in Hn.
    destruct (live n s); [by rewrite length_insert|done]. }
  assert (Hcancel : forall t, reconnectTimeoutRef s = Some t ->
            existsb (fun p => Nat.eqb (fst p) t) (timeouts (disconnect s)) = false)
    by (intros t Ht; by apply (disconnect_cancels s t)).
  destruct (effect_cases url' (disconnect s)) as [-> | ->];
    rewrite ?disconnect_twice; try done.
  destruct (connect_cases url' (disconnect s))
    as (Hts & _ & _ & _ & _ & Hat & Hms & _ & Hmq & Hcase).
  cbv zeta in *.
  split; [|split; [by rewrite Hms|split; [by rewrite Hmq|split; [by rewrite Hat|]]]].
  - unfold live, readyState_is in *.
    destruct Hcase as [(-> & _)|(-> & _)]; [done|].
    by rewrite lookup_app_l.
  - intros t Ht. cbn [enabled]. rewrite Hts. by apply Hcancel.
Qed.

End Lifecycle.

(** ** The merged feed, again *)

Section SortedInput.
Context {A : Type} (cmp : A -> A -> option Z).
Variable f : A -> Z.
Variable P : A -> Prop.
Hypothesis cmp_sign :
  forall x y, P x -> P y -> (0 <? SortCompare cmp x y) = (f y <? f x).

(** Sorting what is sorted changes nothing. *)
Lemma sort_of_sorted (l : list A) :
  Forall P l -> StronglySorted (fun a b => f a <= f b) l -> sort cmp l = l.
Proof.
  intros HP Hs. induction Hs as [|x l Hs IH Hx]; simpl; [done|].
  inversion_clear HP as [|? ? Px Pl]. rewrite IH by done.
  apply insert_front. intros y Hy.
  assert (Hin : In y l) by (destruct l; simplify_eq/=; by left).
  rewrite Forall_forall in Hx, Pl.
  pose proof (cmp_sign x y Px (Pl y (proj2 (list_elem_of_In _ _) Hin))) as Hsign.
  pose proof (Hx y (proj2 (list_elem_of_In _ _) Hin)) as Hle. simpl in Hle.
  destruct (Z.ltb_spec 0 (SortCompare cmp x y)) as [Hgt|Hge]; [|lia].
  symmetry in Hsign. apply Z.ltb_lt in Hsign. lia.
Qed.

End SortedInput.

Section FeedAgain.
Context `{Platform}.

Lemma existsb_has_key (k : jsstring) (l : list Message) :
  existsb (has_key k) l = true <-> In k (List.map key l).
Proof.
  rewrite existsb_exists, in_map_iff. split.
  - intros (m & Hm & Hk). exists m. split; [by apply has_key_true|done].
  - intros (m & Hk & Hm). exists m. split; [done|by apply has_key_true].
Qed.

(** Where no key repeats, line 65 drops nothing. *)
Lemma keepFirst_distinct (seen l : list Message) :
  List.NoDup (List.map key (seen ++ l)) -> keepFirst seen l = l.
Proof.
  revert seen. induction l as [|v l IH]; intros seen Hnd; simpl; [done|].
  assert (Hv : existsb (has_key (key v)) seen = false).
  { apply not_true_is_false. rewrite existsb_has_key. intros Hin.
    rewrite List.map_app in Hnd. simpl in Hnd.
    apply List.NoDup_remove_2 in Hnd. apply Hnd, in_or_app. by left. }
  rewrite Hv. f_equal. apply IH. by rewrite <- app_assoc.
Qed.

(** X18: every message of the merged feed is a message of the history or a
    live message whose [chatId] is the selected chat: the live messages of
    other chats stay out, the history is taken whole. The feed is never
    longer than the history and the live messages together. *)
Theorem MergedFeed_members (chat : jsval) (chatHistory messages : list Message) :
  (forall m, In m (MergedFeed chat chatHistory messages) ->
             In m chatHistory
             \/ (In m messages /\ chatId m = chat))
  /\ (length (MergedFeed chat chatHistory messages)
      <= length chatHistory + length messages)%nat.
Proof.
  split.
  - intros m Hm. apply MergedFeed_incl in Hm. unfold concatenated, liveOfChat in Hm.
    apply in_app_or in Hm as [Hm|Hm]; [by left|right].
    apply filter_In in Hm as [Hm Hchat]. split; [done|].
    unfold strict_eq in Hchat. by apply bool_decide_eq_true in Hchat.
  - etransitivity; [apply sublist_length, MergedFeed_sublist|].
    unfold allMessages. rewrite (Permutation_length (sort_Permutation _ _)).
    unfold concatenated, liveOfChat. rewrite length_app.
    pose proof (List.filter_length_le (fun msg => strict_eq (chatId msg) chat) messages).
    lia.
Qed.

(** X19: where the ids of the history and of the live messages of the chat
    are all different (as texts), the merged feed drops nothing: it is a
    rearrangement of the concatenation. *)
Theorem MergedFeed_distinct_ids_lose_nothing
    (chat : jsval) (chatHistory messages : list Message) :
  List.NoDup (List.map key (concatenated chat chatHistory messages)) ->
  Permutation (MergedFeed chat chatHistory messages)
              (concatenated chat chatHistory messages).
Proof.
  intros Hnd. unfold MergedFeed. rewrite uniqueMessages_keepFirst.
  rewrite keepFirst_distinct.
  - apply sort_Permutation.
  - simpl. eapply Permutation_NoDup; [|exact Hnd].
    apply Permutation_map. symmetry. apply sort_Permutation.
Qed.

(** X20: merging is stable under repetition: with all timestamps
    resolving, the merge of a merged feed with no live message is that
    feed. *)
Theorem MergedFeed_again (chat : jsval) (chatHistory messages : list Message) :
  Forall resolvable (concatenated chat chatHistory messages) ->
  MergedFeed chat (MergedFeed chat chatHistory messages) []
  = MergedFeed chat chatHistory messages.
Proof.
  intros Hres.
  set (feed := MergedFeed chat chatHistory messages).
  assert (Hsub : sublist feed (allMessages chat chatHistory messages))
    by apply MergedFeed_sublist.
  assert (Hall : Forall resolvable (allMessages chat chatHistory messages))
    by (by apply sort_Forall).
  assert (Hfeed : Forall resolvable feed).
  { rewrite Forall_forall in Hall |- *. intros m Hm. apply Hall.
    eapply sublist_subseteq; [exact Hsub|done]. }
  assert (Hsorted : StronglySorted (fun a b => time_value a <= time_value b) feed).
  { eapply StronglySorted_sublist; [exact Hsub|].
    by apply (sort_sorted comparefn time_value resolvable SortCompare_resolvable). }
  unfold MergedFeed at 1. unfold allMessages, concatenated, liveOfChat. simpl.
  rewrite app_nil_r.
  rewrite (sort_of_sorted comparefn time_value resolvable SortCompare_resolvable)
    by done.
  rewrite uniqueMessages_keepFirst. apply keepFirst_distinct. simpl.
  apply NoDup_ListNoDup. unfold feed, MergedFeed.
  rewrite uniqueMessages_keepFirst. apply keepFirst_NoDup.
Qed.

End FeedAgain.

(** ** The callers *)

Section CallerFacts.
Context `{Platform}.

(** X21: the chat window's submit does not look at what [sendMessage]
    returns. With a chat selected and the state [connected], a text of more
    than 4000 characters is rejected by the hook (nothing is sent or queued,
    the diagnostic is set) and the input is cleared all the same. *)
Theorem ChatWindow_drops_long_text (chat uuid newMessage : jsstring)
    (now : Z) (s : hook) :
  chat <> [] -> isConnected s = true ->
  trim newMessage <> [] ->
  MAX_MESSAGE_LENGTH < Z.of_nat (length newMessage) ->
  let r := ChatWindow_handleSendMessage (Some chat) uuid now newMessage s in
  fst r = []
  /\ wire (snd r) = wire s
  /\ messageQueue (snd r) = messageQueue s
  /\ errorText (snd r) = Some "Message too long. Maximum 4000 characters."%string.
Proof.
  intros Hchat Hconn Hblank Hlong. cbv zeta.
  unfold ChatWindow_handleSendMessage, sendMessage.
  destruct chat as [|c chat]; [done|]. rewrite Hconn.
  destruct (trim newMessage) as [|x t] eqn:Ht; [done|]. simpl.
  by rewrite (proj2 (Z.ltb_lt _ _) Hlong).
Qed.

(** X22: the enhanced chat window clears its input only when [sendMessage]
    returns true. A valid text submitted while the channel is not open is
    queued and stays in the input, and submitting it again queues it a
    second time; submitted while the channel is open it is sent at once and
    the input is cleared. *)
Theorem EnhancedChatWindow_keeps_queued_text
    (chat uuid1 uuid2 messageText : jsstring) (now1 now2 : Z) (s : hook) :
  chat <> [] -> validContent messageText = true ->
  (wsOpen s = false ->
   let r1 := EnhancedChatWindow_handleSendMessage (Some chat) uuid1 now1 messageText s in
   let r2 := EnhancedChatWindow_handleSendMessage (Some chat) uuid2 now2 (fst r1) (snd r1) in
   fst r1 = messageText /\ fst r2 = messageText
   /\ wire (snd r2) = wire s
   /\ messageQueue (snd r2)
      = messageQueue s
        ++ [Chat uuid1 chat (sanitizeMessage messageText) now1 (lit "You");
            Chat uuid2 chat (sanitizeMessage messageText) now2 (lit "You")])
  /\ (wsOpen s = true ->
      let r := EnhancedChatWindow_handleSendMessage (Some chat) uuid1 now1 messageText s in
      fst r = []
      /\ exists ws, wsRef s = Some ws
           /\ wire (snd r)
              = wire s ++ [(ws, Chat uuid1 chat (sanitizeMessage messageText) now1 (lit "You"))]
           /\ messageQueue (snd r) = messageQueue s).
Proof.
  intros Hchat Hvalid.
  assert (Hblank : Nat.eqb (length (trim messageText)) 0 = false).
  { unfold validContent in Hvalid. apply andb_prop in Hvalid as [Hb _].
    by apply negb_true_iff in Hb. }
  pose (c1 := {| to_chat := chat; text := messageText; uuid := uuid1; at_ms := now1 |}).
  pose (c2 := {| to_chat := chat; text := messageText; uuid := uuid2; at_ms := now2 |}).
  assert (Hstep : forall u n s0,
            EnhancedChatWindow_handleSendMessage (Some chat) u n messageText s0
            = let '(s', success) := sendMessage chat messageText u n s0 in
              (if success then [] else messageText, s')).
  { intros u n s0. unfold EnhancedChatWindow_handleSendMessage.
    destruct chat as [|x chat]; [done|]. by rewrite Hblank. }
  split.
  - intros Hclosed. cbv zeta.
    destruct (compose_queued c1 s Hvalid Hclosed) as (Hr1 & Hq1 & Hw1 & Hs1 & Hf1).
    rewrite (Hstep uuid1 now1 s).
    unfold compose in *. simpl in Hr1, Hq1, Hw1, Hs1, Hf1.
    destruct (sendMessage chat messageText uuid1 now1 s) as [s1 b1] eqn:E1.
    simpl in *. subst b1. simpl.
    assert (Hclosed1 : wsOpen s1 = false) by (by rewrite (wsOpen_ext s s1)).
    destruct (compose_queued c2 s1 Hvalid Hclosed1) as (Hr2 & Hq2 & Hw2 & _).
    rewrite (Hstep uuid2 now2 s1).
    unfold compose in *. simpl in Hr2, Hq2, Hw2.
    destruct (sendMessage chat messageText uuid2 now2 s1) as [s2 b2] eqn:E2.
    simpl in *. subst b2. simpl.
    rewrite Hq2, Hq1, Hw2, Hw1, <- app_assoc. done.
  - intros Hopen. cbv zeta. unfold wsOpen in Hopen.
    destruct (wsRef s) as [ws|] eqn:Hws; [|done].
    destruct (compose_sent c1 s ws Hvalid Hws Hopen) as (Hr & Hq & Hw & _).
    rewrite (Hstep uuid1 now1 s).
    unfold compose in *. simpl in Hr, Hq, Hw.
    destruct (sendMessage chat messageText uuid1 now1 s) as [s1 b1] eqn:E1.
    simpl in *. subst b1. simpl. split; [done|]. by exists ws.
Qed.

End CallerFacts.

(** ** Runs and sessions that compute *)

Lemma play_run `{Platform} (url : option jsstring) (es : list event) (s s' : hook) :
  play url es s = Some s' -> run url s es s'.
Proof.
  revert s. induction es as [|e es IH]; intros s; simpl.
  - intros [= ->]. constructor.
  - destruct (enabled e s) eqn:Hen; [|done]. intros Hplay.
    constructor; [done|by apply IH].
Qed.

Lemma playAll_session `{Platform} (url : option jsstring) (acts : list action)
    (s s' : hook) :
  playAll url acts s = Some s' -> session url s acts s'.
Proof.
  revert s. induction acts as [|a acts IH]; intros s; simpl.
  - intros [= ->]. constructor.
  - destruct (permitted a s) eqn:Hp; [|done]. intros Hplay.
    constructor; [done|by apply IH].
Qed.

Example busy_session_plays :
  playAll url42 busy_session initial = Some busy_end
  /\ List.map (fun m => content m) (messages busy_end)
     = [VStr (lit "it&#x27;s here"); VStr (lit "Tom & Jerry")]
  /\ List.map snd (wire busy_end) = [frame_of hello; frame_of again; Ping].
Proof. repeat split; vm_compute; reflexivity. Qed.

(** ** The further properties at concrete inputs *)

Lemma onmessage_evicts_oldest_witness :
  (length (messages one_stored) = 1%nat
   /\ messages (onmessage (Object frame_apostrophe) ten_oclock one_stored)
      = messages one_stored ++ [sanitizedMessage ten_oclock frame_apostrophe])
  /\ (length (messages full_store) = MAX_MESSAGES_BUFFER
      /\ messages (onmessage (Object frame_apostrophe) ten_oclock full_store)
         = tail (messages full_store) ++ [sanitizedMessage ten_oclock frame_apostrophe]).
Proof.
  split; (split; [vm_compute; reflexivity|]).
  - destruct (onmessage_evicts_oldest frame_apostrophe ten_oclock one_stored)
      as [Hbelow _]; [vm_compute; reflexivity..|].
    apply Hbelow. vm_compute. lia.
  - destruct (onmessage_evicts_oldest frame_apostrophe ten_oclock full_store)
      as [_ Hfull]; [vm_compute; reflexivity..|].
    apply Hfull. vm_compute. reflexivity.
Defined.

(** The full store holds the frames 0 to 999 in the order of their arrival;
    the frame that comes next pushes frame 0 out and frame 1 to the head. *)
Example full_store_evicts_frame_0 :
  List.map id (firstn 2 (messages full_store))
  = [VStr (lit "0"); VStr (lit "1")]
  /\ List.map id (firstn 2 (messages (onmessage (Object frame_apostrophe) ten_oclock full_store)))
     = [VStr (lit "1"); VStr (lit "2")]
  /\ length (messages (onmessage (Object frame_apostrophe) ten_oclock full_store))
     = MAX_MESSAGES_BUFFER
  /\ List.map id (skipn 999 (messages (onmessage (Object frame_apostrophe) ten_oclock full_store)))
     = [VStr (lit "m2")].
Proof. repeat split; vm_compute; reflexivity. Qed.

Lemma close_schedules_one_retry_witness :
  let s' := handle url42 (EvClose 0 1006) opened in
  connectionState s' = reconnecting
  /\ timeouts s' = timeouts opened ++ [(next_timer opened, reconnectDelay (reconnectAttempts opened))]
  /\ reconnectTimeoutRef s' = Some (next_timer opened)
  /\ reconnectAttempts s' = reconnectAttempts opened
  /\ heartbeatIntervalRef s' = None
  /\ errorText s' = errorText opened
  /\ sockets s' = <[0%nat := CLOSED]> (sockets opened).
Proof.
  apply (close_schedules_one_retry url42 0 1006 opened); try lia.
  vm_compute. lia.
Defined.

Lemma clean_close_is_silent_witness :
  let s' := handle url42 (EvClose 0 1000) opened in
  connectionState s' = disconnected
  /\ errorText s' = errorText opened
  /\ timeouts s' = timeouts opened
  /\ reconnectAttempts s' = reconnectAttempts opened
  /\ heartbeatIntervalRef s' = None
  /\ messageQueue s' = messageQueue opened.
Proof.
  apply (clean_close_is_silent url42 0 opened). vm_compute. lia.
Defined.

Lemma timer_fires_then_connects_witness :
  let s := handle url42 (EvClose 0 1006) opened in
  let s' := handle url42 (EvTimeout 2) s in
  reconnectAttempts s' = S (reconnectAttempts s)
  /\ enabled (EvTimeout 2) s' = false
  /\ sockets s' = sockets s ++ [CONNECTING]
  /\ wsRef s' = Some (length (sockets s))
  /\ connectionState s' = connecting
  /\ errorText s' = None.
Proof.
  apply (timer_fires_then_connects url42 2 (lit "ws://localhost:8000/ws/42")
           (handle url42 (EvClose 0 1006) opened)).
  - reflexivity.
  - vm_compute. discriminate.
  - vm_compute. reflexivity.
  - vm_compute. reflexivity.
Defined.

Lemma connect_rejected_address_witness :
  let s' := connect url_http initial in
  connectionState s' = error
  /\ errorText s' = Some "Failed to establish connection"%string
  /\ sockets s' = sockets initial
  /\ wsRef s' = wsRef initial
  /\ timeouts s' = timeouts initial
  /\ reconnectAttempts s' = reconnectAttempts initial.
Proof.
  apply (connect_rejected_address url_http (lit "http://localhost:8000/ws/42") initial).
  - reflexivity.
  - vm_compute. discriminate.
  - vm_compute. reflexivity.
  - vm_compute. reflexivity.
Defined.

Lemma store_within_capacity_witness :
  (length (messages busy_end) <= MAX_MESSAGES_BUFFER)%nat.
Proof.
  apply (store_within_capacity url42 busy_session initial busy_end).
  - vm_compute. lia.
  - apply playAll_session. vm_compute. reflexivity.
Defined.

Lemma store_holds_sanitized_witness : Forall stored_ok (messages busy_end).
Proof.
  apply (store_holds_sanitized url42 busy_session initial busy_end).
  - constructor.
  - apply playAll_session. vm_compute. reflexivity.
Defined.

Lemma heartbeat_is_single_witness : one_heartbeat busy_end.
Proof.
  apply (heartbeat_is_single url42 busy_session initial busy_end).
  - reflexivity.
  - apply playAll_session. vm_compute. reflexivity.
Defined.

Lemma close_after_disconnect_retries_witness :
  let s1 := disconnect (connect url42 initial) in
  let s2 := handle url42 (EvClose 0 1006) s1 in
  enabled (EvClose 0 1006) s1 = true
  /\ connectionState s1 = disconnected
  /\ connectionState s2 = reconnecting
  /\ timeouts s2 = timeouts s1 ++ [(next_timer s1, 1000)]
  /\ enabled (EvTimeout (next_timer s1)) s2 = true.
Proof.
  apply (close_after_disconnect_retries url42 0 1006 (connect url42 initial));
    try lia; vm_compute; reflexivity.
Defined.

Lemma events_keep_one_channel_witness :
  (forall i j, live i at_ceiling = true -> live j at_ceiling = true -> i = j)
  /\ (length (timeouts at_ceiling) <= 1)%nat
  /\ (timeouts at_ceiling <> [] -> forall i, live i at_ceiling = false)
  /\ (reconnectAttempts at_ceiling <= MAX_RECONNECT_ATTEMPTS)%nat
  /\ one_channel (connect url42 initial).
Proof.
  apply (events_keep_one_channel url42 five_retries (connect url42 initial) at_ceiling).
  - apply one_channel_connect_initial.
  - apply play_run. vm_compute. reflexivity.
Defined.

Lemma queue_survives_reconnect_witness :
  let s := connect url42 initial in
  let s1 := disconnect (composeAll [hello; again] s) in
  let s2 := connect url42 s1 in
  let ws := length (sockets s) in
  let s3 := handle url42 (EvOpen ws) s2 in
  messageQueue s1 = messageQueue s ++ List.map frame_of [hello; again]
  /\ wsRef s2 = Some ws
  /\ enabled (EvOpen ws) s2 = true
  /\ wire s3 = wire s ++ List.map (pair ws) (messageQueue s ++ List.map frame_of [hello; again])
  /\ messageQueue s3 = [].
Proof.
  apply (queue_survives_reconnect url42 (lit "ws://localhost:8000/ws/42")
           [hello; again] (connect url42 initial)).
  - reflexivity.
  - vm_compute. discriminate.
  - vm_compute. reflexivity.
  - vm_compute. reflexivity.
  - repeat constructor.
Defined.

Lemma switch_tears_down_keeps_store_witness :
  live 0 (switch url43 opened) = false
  /\ messages (switch url43 opened) = messages opened
  /\ messageQueue (switch url43 opened) = messageQueue opened
  /\ reconnectAttempts (switch url43 opened) = 0%nat
  /\ (forall t, reconnectTimeoutRef opened = Some t ->
                enabled (EvTimeout t) (switch url43 opened) = false).
Proof.
  apply (switch_tears_down_keeps_store url43 0 OPEN opened);
    vm_compute; reflexivity.
Defined.

(** The switch to another chat: the old channel is closing, the new one is
    the current one. *)
Example switch_opens_the_next :
  sockets (switch url43 opened) = [CLOSING; CONNECTING]
  /\ wsRef (switch url43 opened) = Some 1%nat.
Proof. split; vm_compute; reflexivity. Qed.

Lemma MergedFeed_distinct_ids_lose_nothing_witness :
  Permutation (MergedFeed chat42 [history_c] [live_b; live_a])
              (concatenated chat42 [history_c] [live_b; live_a]).
Proof.
  apply (MergedFeed_distinct_ids_lose_nothing chat42 [history_c] [live_b; live_a]).
  apply NoDup_ListNoDup, (bool_decide_unpack _). vm_compute. exact I.
Defined.

Lemma MergedFeed_again_witness :
  MergedFeed chat42 (MergedFeed chat42 [history_c; history_a] [live_b; live_a]) []
  = MergedFeed chat42 [history_c; history_a] [live_b; live_a].
Proof.
  apply (MergedFeed_again chat42 [history_c; history_a] [live_b; live_a]).
  all_resolvable.
Defined.

Lemma ChatWindow_drops_long_text_witness :
  let r := ChatWindow_handleSendMessage (Some (lit "42")) (lit "u-9") ten_oclock
             long_text opened in
  fst r = []
  /\ wire (snd r) = wire opened
  /\ messageQueue (snd r) = messageQueue opened
  /\ errorText (snd r) = Some "Message too long. Maximum 4000 characters."%string.
Proof.
  apply (ChatWindow_drops_long_text (lit "42") (lit "u-9") long_text ten_oclock opened).
  - vm_compute. discriminate.
  - vm_compute. reflexivity.
  - vm_compute. discriminate.
  - vm_compute. reflexivity.
Defined.

Lemma EnhancedChatWindow_keeps_queued_text_witness :
  (wsOpen (connect url42 initial) = false ->
   let r1 := EnhancedChatWindow_handleSendMessage (Some (lit "42")) (lit "u-1")
               ten_oclock (lit "hello") (connect url42 initial) in
   let r2 := EnhancedChatWindow_handleSendMessage (Some (lit "42")) (lit "u-2")
               (ten_oclock + 1) (fst r1) (snd r1) in
   fst r1 = lit "hello" /\ fst r2 = lit "hello"
   /\ wire (snd r2) = wire (connect url42 initial)
   /\ messageQueue (snd r2)
      = messageQueue (connect url42 initial)
        ++ [Chat (lit "u-1") (lit "42") (sanitizeMessage (lit "hello")) ten_oclock (lit "You");
            Chat (lit "u-2") (lit "42") (sanitizeMessage (lit "hello")) (ten_oclock + 1) (lit "You")])
  /\ (wsOpen (connect url42 initial) = true ->
      let r := EnhancedChatWindow_handleSendMessage (Some (lit "42")) (lit "u-1")
                 ten_oclock (lit "hello") (connect url42 initial) in
      fst r = []
      /\ exists ws, wsRef (connect url42 initial) = Some ws
           /\ wire (snd r)
              = wire (connect url42 initial)
                ++ [(ws, Chat (lit "u-1") (lit "42") (sanitizeMessage (lit "hello")) ten_oclock (lit "You"))]
           /\ messageQueue (snd r) = messageQueue (connect url42 initial)).
Proof.
  apply (EnhancedChatWindow_keeps_queued_text (lit "42") (lit "u-1") (lit "u-2")
           (lit "hello") ten_oclock (ten_oclock + 1) (connect url42 initial)).
  - vm_compute. discriminate.
  - vm_compute. reflexivity.
Defined.

(** ** What is sent, and where *)

Lemma drainQueue_wire (ws : nat) (queue : list frame) (s : hook) :
  wire (drainQueue ws queue s)
  = wire s ++ (if readyState_is ws OPEN s then List.map (pair ws) queue else []).
Proof.
  revert s. induction queue as [|m q IH]; intros s; simpl.
  - destruct (readyState_is ws OPEN s); by rewrite app_nil_r.
  - change (readyState_is ws OPEN (set_messageQueue q s))
      with (readyState_is ws OPEN s).
    destruct (readyState_is ws OPEN s) eqn:Hopen; rewrite IH.
    + change (readyState_is ws OPEN (send ws m (set_messageQueue q s)))
        with (readyState_is ws OPEN s).
      rewrite Hopen. simpl. by rewrite <- app_assoc.
    + change (readyState_is ws OPEN (set_messageQueue q s))
        with (readyState_is ws OPEN s).
      by rewrite Hopen.
Qed.

Lemma onclose_wire (code : Z) (s : hook) :
  wire (onclose code s) = wire s /\ sockets (onclose code s) = sockets s.
Proof.
  destruct s as [cs ms et wr ra rt hb mq so wi ts ivs nt].
  unfold onclose, stopHeartbeat. simpl.
  destruct hb; simpl; repeat case_match; simpl; by repeat split.
Qed.

Section Sending.
Context `{Platform}.
Variable url : option jsstring.

(** X23: nothing is ever handed to a socket that is not open. Whatever an
    action adds to the wire (the queue flushed by an open event, a message
    sent at once, a ping) it adds at the end, and on a socket that is open
    when the action is done. *)
Theorem sends_only_on_open_sockets (a : action) (s : hook) :
  exists new,
    wire (perform url a s) = wire s ++ new
    /\ Forall (fun p => readyState_is (fst p) OPEN (perform url a s) = true) new.
Proof.
  destruct a as [[ws|ws code|ws|ws data now|t|t]| | |c|]; cbn [perform handle].
  - set (s0 := set_sockets (<[ws := OPEN]> (sockets s)) s).
    exists (if readyState_is ws OPEN s0
            then List.map (pair ws) (messageQueue s) else []).
    assert (Hso : sockets (onopen ws s0) = sockets s0) by apply onopen_sockets.
    split.
    + unfold onopen. rewrite drainQueue_wire. unfold startHeartbeat. simpl.
      by destruct (heartbeatIntervalRef s).
    + destruct (readyState_is ws OPEN s0) eqn:Hopen; [|constructor].
      apply Forall_forall. intros p Hp. apply list_elem_of_In, in_map_iff in Hp.
      destruct Hp as (m & <- & _). simpl.
      unfold readyState_is in *. by rewrite Hso.
  - exists []. split; [|constructor]. rewrite app_nil_r.
    by destruct (onclose_wire code (set_sockets (<[ws:=CLOSED]> (sockets s)) s)) as (-> & _).
  - exists []. split; [by rewrite app_nil_r|constructor].
  - exists []. split; [|constructor]. rewrite app_nil_r.
    by destruct (onmessage_frame data now s)
      as (_ & _ & _ & _ & _ & _ & _ & _ & -> & _).
  - exists []. split; [|constructor]. rewrite app_nil_r. unfold reconnectCallback.
    match goal with
    | |- wire (connect url ?s0) = _ =>
        destruct (connect_cases url s0) as (_ & _ & _ & _ & _ & _ & _ & -> & _)
    end. done.
  - unfold heartbeat. destruct (wsRef s) as [n|]; [|exists []; split; [by rewrite app_nil_r|constructor]].
    destruct (readyState_is n OPEN s) eqn:Hopen;
      [|exists []; split; [by rewrite app_nil_r|constructor]].
    exists [(n, Ping)]. split; [done|]. by repeat constructor.
  - exists []. split; [|constructor]. rewrite app_nil_r.
    by destruct (connect_cases url s) as (_ & _ & _ & _ & _ & _ & _ & -> & _).
  - exists []. split; [|constructor]. rewrite app_nil_r.
    by destruct (disconnect_frame s) as (_ & _ & -> & _).
  - destruct (validContent (text c)) eqn:Hvalid.
    + destruct (wsOpen s) eqn:Hopen.
      * unfold wsOpen in Hopen. destruct (wsRef s) as [ws|] eqn:Hws; [|done].
        destruct (compose_sent c s ws Hvalid Hws Hopen) as (_ & _ & Hw & Hso & _).
        exists [(ws, frame_of c)]. split; [done|].
        repeat constructor. simpl. unfold readyState_is in *. by rewrite Hso.
      * destruct (compose_queued c s Hvalid Hopen) as (_ & _ & Hw & _).
        exists []. split; [by rewrite app_nil_r|constructor].
    + destruct (compose_rejected c s Hvalid) as (_ & _ & Hw & _).
      exists []. split; [by rewrite app_nil_r|constructor].
  - exists []. split; [by rewrite app_nil_r|constructor].
Qed.

End Sending.

(** ** The queue, from composition to the open event *)

Lemma onclose_queue (code : Z) (s : hook) :
  messageQueue (onclose code s) = messageQueue s
  /\ wsRef (onclose code s) = wsRef s.
Proof.
  destruct s as [cs ms et wr ra rt hb mq so wi ts ivs nt].
  unfold onclose, stopHeartbeat. simpl.
  destruct hb; simpl; repeat case_match; simpl; by split.
Qed.

Section QueueAcrossEvents.
Context `{Platform}.
Variable url : option jsstring.

Lemma connect_stays_closed (s : hook) :
  wsOpen s = false -> wsOpen (connect url s) = false.
Proof.
  intros Hclosed.
  destruct (connect_cases url s)
    as (_ & _ & _ & _ & _ & _ & _ & _ & _ & [(Hso & Hws)|(Hso & Hws & _)]).
  - by rewrite (wsOpen_ext s _ Hso Hws).
  - unfold wsOpen, readyState_is. rewrite Hws, Hso.
    rewrite lookup_app_r by lia. by rewrite Nat.sub_diag.
Qed.

(** An action other than an open event leaves a channel that is not open
    not open; it sends nothing, and the queue grows by the message it
    composes, if it composes one that passes the validation. *)
Lemma closed_step (a : action) (s : hook) :
  wsOpen s = false -> opening a = false ->
  wsOpen (perform url a s) = false
  /\ messageQueue (perform url a s)
     = messageQueue s ++ List.map frame_of (composedValid [a])
  /\ wire (perform url a s) = wire s.
Proof.
  intros Hclosed Hopening.
  destruct a as [[ws|ws code|ws|ws data now|t|t]| | |c|];
    cbn [perform handle composedValid flat_map List.map app];
    rewrite ?app_nil_r.
  - done.
  - set (s0 := set_sockets (<[ws := CLOSED]> (sockets s)) s).
    destruct (onclose_wire code s0) as (Hw & Hso).
    destruct (onclose_queue code s0) as (Hq & Hws).
    rewrite (wsOpen_ext s0 _ Hso Hws), Hq, Hw. split; [|done].
    unfold wsOpen in *. change (wsRef s0) with (wsRef s).
    destruct (wsRef s) as [n|]; [|done]. unfold s0.
    rewrite readyState_is_insert. destruct (decide (n = ws)); [|done].
    by rewrite (bool_decide_eq_false_2 (OPEN = CLOSED)).
  - done.
  - destruct (onmessage_frame data now s)
      as (_ & _ & Hws & _ & _ & _ & Hq & Hso & Hw & _).
    by rewrite (wsOpen_ext s _ Hso Hws), Hq, Hw.
  - unfold reconnectCallback.
    set (s0 := set_reconnectAttempts _ _).
    destruct (connect_cases url s0) as (_ & _ & _ & _ & _ & _ & _ & Hw & Hq & _).
    rewrite Hw, Hq. split; [|done]. by apply connect_stays_closed.
  - unfold heartbeat. unfold wsOpen in Hclosed.
    destruct (wsRef s) as [n|] eqn:Hws.
    + rewrite Hclosed. unfold wsOpen. by rewrite Hws.
    + unfold wsOpen. by rewrite Hws.
  - destruct (connect_cases url s) as (_ & _ & _ & _ & _ & _ & _ & Hw & Hq & _).
    rewrite Hw, Hq. split; [|done]. by apply connect_stays_closed.
  - destruct (disconnect_refs s) as (Hws & _).
    destruct (disconnect_frame s) as (_ & Hq & Hw & _).
    rewrite Hq, Hw. split; [|done]. unfold wsOpen. by rewrite Hws.
  - destruct (validContent (text c)) eqn:Hvalid.
    + destruct (compose_queued c s Hvalid Hclosed) as (_ & Hq & Hw & Hso & Hws).
      by rewrite (wsOpen_ext s _ Hso Hws), Hq, Hw.
    + destruct (compose_rejected c s Hvalid) as (_ & Hq & Hw & Hso & Hws).
      by rewrite (wsOpen_ext s _ Hso Hws), Hq, Hw, app_nil_r.
  - done.
Qed.

Lemma closed_session (acts : list action) (s s' : hook) :
  wsOpen s = false -> session url s acts s' ->
  Forall (fun a => opening a = false) acts ->
  wsOpen s' = false
  /\ messageQueue s' = messageQueue s ++ List.map frame_of (composedValid acts)
  /\ wire s' = wire s.
Proof.
  intros Hclosed Hrun. induction Hrun as [s|s a acts s' _ _ IH]; intros Hacts.
  - by rewrite app_nil_r.
  - apply Forall_cons_1 in Hacts as [Ha Hacts].
    destruct (closed_step a s Hclosed Ha) as (Hc & Hq & Hw).
    destruct (IH Hc Hacts) as (Hc' & Hq' & Hw').
    rewrite Hq', Hw', Hq, Hw.
    assert (Hcons : composedValid (a :: acts) = composedValid [a] ++ composedValid acts).
    { unfold composedValid. simpl. by rewrite app_nil_r. }
    by rewrite Hcons, List.map_app, app_assoc.
Qed.

(** What is on the wire stays there, whatever is done. *)
Lemma perform_wire_prefix (a : action) (s : hook) :
  wire s `prefix_of` wire (perform url a s).
Proof.
  destruct a as [[ws|ws code|ws|ws data now|t|t]| | |c|]; cbn [perform handle].
  - unfold onopen. rewrite drainQueue_wire.
    eexists. f_equal. unfold startHeartbeat. simpl.
    by destruct (heartbeatIntervalRef s).
  - by destruct (onclose_wire code (set_sockets (<[ws:=CLOSED]> (sockets s)) s)) as (-> & _).
  - done.
  - by destruct (onmessage_frame data now s)
      as (_ & _ & _ & _ & _ & _ & _ & _ & -> & _).
  - unfold reconnectCallback.
    match goal with
    | |- _ `prefix_of` wire (connect url ?s0) =>
        destruct (connect_cases url s0) as (_ & _ & _ & _ & _ & _ & _ & -> & _)
    end. done.
  - unfold heartbeat. repeat case_match; try done. by apply prefix_app_r.
  - by destruct (connect_cases url s) as (_ & _ & _ & _ & _ & _ & _ & -> & _).
  - by destruct (disconnect_frame s) as (_ & _ & -> & _).
  - apply compose_wire_prefix.
  - done.
Qed.

Lemma session_wire_prefix (acts : list action) (s s' : hook) :
  session url s acts s' -> wire s `prefix_of` wire s'.
Proof.
  induction 1 as [s|s a acts s' _ _ IH]; [done|].
  etransitivity; [apply (perform_wire_prefix a)|exact IH].
Qed.

(** C8: messages composed while the channel is not open are queued,
    whatever else happens meanwhile short of an open event (closes, errors,
    inbound frames, reconnect timers firing and their [connect], manual
    [connect] and [disconnect]): nothing is sent, and the queue grows by the
    frames of the messages that pass the validation, in the order of the
    calls. When a socket then opens, the state is [connected], the whole
    queue (what it held before, then these) is sent on that socket from head
    to tail and left empty; whatever is composed or done afterwards only
    adds to the wire after them. *)
Theorem C8_queue_flushed_in_order (ws : nat) (acts : list action) (s s1 : hook) :
  wsOpen s = false ->
  session url s acts s1 ->
  Forall (fun a => opening a = false) acts ->
  enabled (EvOpen ws) s1 = true ->
  let s2 := handle url (EvOpen ws) s1 in
  messageQueue s1 = messageQueue s ++ List.map frame_of (composedValid acts)
  /\ wire s1 = wire s
  /\ connectionState s2 = connected
  /\ wire s2
     = wire s ++ List.map (pair ws)
                   (messageQueue s ++ List.map frame_of (composedValid acts))
  /\ messageQueue s2 = []
  /\ (forall later, wire s2 `prefix_of` wire (composeAll later s2))
  /\ (forall acts' s3, session url s2 acts' s3 -> wire s2 `prefix_of` wire s3).
Proof.
  intros Hclosed Hrun Hacts Hen. cbv zeta.
  destruct (closed_session acts s s1 Hclosed Hrun Hacts) as (_ & Hq & Hw).
  destruct (open_event_flushes url ws s1 Hen) as (Hstate & Hwire & Hqueue).
  rewrite Hq, Hw in Hwire.
  split; [done|]. split; [done|]. split; [done|]. split; [done|].
  split; [done|]. split.
  - intros later. apply composeAll_wire_prefix.
  - intros acts' s3. apply session_wire_prefix.
Qed.

End QueueAcrossEvents.

Lemma C8_queue_flushed_in_order_witness :
  let s := connect url42 initial in
  let s2 := handle url42 (EvOpen 1) retry_end in
  composedValid retry_session = [hello; again; hello]
  /\ messageQueue retry_end
     = messageQueue s ++ List.map frame_of (composedValid retry_session)
  /\ wire retry_end = wire s
  /\ connectionState s2 = connected
  /\ wire s2
     = wire s ++ List.map (pair 1%nat)
                   (messageQueue s ++ List.map frame_of (composedValid retry_session))
  /\ messageQueue s2 = []
  /\ (forall later, wire s2 `prefix_of` wire (composeAll later s2))
  /\ (forall acts' s3, session url42 s2 acts' s3 -> wire s2 `prefix_of` wire s3).
Proof.
  cbv zeta. split; [vm_compute; reflexivity|].
  apply (C8_queue_flushed_in_order url42 1 retry_session (connect url42 initial) retry_end).
  - vm_compute. reflexivity.
  - apply playAll_session. vm_compute. reflexivity.
  - repeat constructor.
  - vm_compute. reflexivity.
Defined.

(** The retry session, event by event: the reconnect timer fires between
    the compositions, and the three valid messages reach the second socket
    in the order of their composition. *)
Example queue_across_retry :
  playAll url42 retry_session (connect url42 initial) = Some retry_end
  /\ List.map snd (wire (handle url42 (EvOpen 1) retry_end))
     = [frame_of hello; frame_of again; frame_of hello]
  /\ List.map fst (wire (handle url42 (EvOpen 1) retry_end)) = [1; 1; 1]%nat.
Proof. repeat split; vm_compute; reflexivity. Qed.
